(** * maiar-ai: conversation memory, capability dispatch, logging decorator
      and plugin registry

    A shallow embedding of
      - packages/core/src/memory/service.ts   (class MemoryService),
      - the model provider base class and its logging decorator
        (ModelProviderBase, LoggingModelDecorator),
      - the plugin registry (class PluginRegistry),
    followed by the properties of the specification proved about them.
    The specification names kinds of errors (MissingReferenceError,
    NotFoundError, CollisionError); the code throws plain [Error] objects,
    told apart by their messages, and the definitions of these names below
    are those [Error] objects.

    Asynchronous methods run to completion one after the other (a single
    cooperative thread, every call awaited), so an [async] method is a
    computation that threads the state of the world and either returns or
    throws. *)

From Stdlib Require Import NArith.
From stdpp Require Import base option list strings pretty.

(** ** The JavaScript runtime the code relies on *)

Module Js.

(** A thrown value: an [Error] object carrying its message, or any other
    value, kept through its [String(...)] rendering. *)
Inductive Thrown : Type :=
| JsError (message : string)
| JsValue (rendering : string).

(** [error instanceof Error ? error.message : String(error)] *)
Definition error_text (error : Thrown) : string :=
  match error with
  | JsError message => message
  | JsValue rendering => rendering
  end.

Definition Result (A : Type) : Type := Thrown + A.

(** A computation over a state [S]: it returns or throws, and leaves a
    state behind in both cases. *)
Definition Run (S A : Type) : Type := S → Result A * S.

#[global] Instance Run_ret S : MRet (Run S) := λ A a s, (inr a, s).

#[global] Instance Run_bind S : MBind (Run S) := λ A B f m s,
  match m s with
  | (inr a, s') => f a s'
  | (inl e, s') => (inl e, s')
  end.

(** Reading from and updating the state. *)
Definition reads {S A} (f : S → A) : Run S A := λ s, (inr (f s), s).
Definition modify {S} (f : S → S) : Run S unit := λ s, (inr (), f s).

(** [throw e] *)
Definition throw {S A} (e : Thrown) : Run S A := λ s, (inl e, s).

(** [try { body } catch (error) { handler }] *)
Definition try_catch {S A} (body : Run S A) (handler : Thrown → Run S A)
  : Run S A :=
  λ s, match body s with
       | (inl e, s') => handler e s'
       | (inr a, s') => (inr a, s')
       end.

(** Metadata payloads of monitor events: JSON-like trees whose leaves may
    hold values of the program ([A]) that the model keeps opaque. *)
#[warnings="-register-all"]
Inductive Meta (A : Type) : Type :=
| MUndefined
| MStr (s : string)
| MNum (n : N)
| MBool (b : bool)
| MArr (items : list (Meta A))
| MObj (fields : list (string * Meta A))
| MVal (a : A).
Arguments MUndefined {A}.
Arguments MStr {A} s.
Arguments MNum {A} n.
Arguments MBool {A} b.
Arguments MArr {A} items.
Arguments MObj {A} fields.
Arguments MVal {A} a.

Definition MOptStr {A} (o : option string) : Meta A :=
  match o with Some s => MStr s | None => MUndefined end.

Inductive LogLevel : Type := LogDebug | LogInfo | LogWarn | LogError.

(** The argument of [MonitorService.publishEvent]. *)
Record Event (A : Type) : Type := mkEvent {
  type : string;
  message : string;
  logLevel : LogLevel;
  metadata : Meta A
}.
Arguments mkEvent {A} type message logLevel metadata.
Arguments type {A} e.
Arguments message {A} e.
Arguments logLevel {A} e.
Arguments metadata {A} e.

(** Truthiness of an optional string: [undefined] and [""] are falsy. *)
Definition truthy (v : option string) : bool :=
  match v with
  | Some s => negb (String.eqb s "")
  | None => false
  end.

(** [value || fallback] on an optional string. *)
Definition or_else (value : option string) (fallback : string) : string :=
  match value with
  | Some s => if String.eqb s "" then fallback else s
  | None => fallback
  end.

(** [Array.prototype.join] on strings. *)
Fixpoint join (sep : string) (l : list string) : string :=
  match l with
  | [] => ""
  | [x] => x
  | x :: rest => x +:+ sep +:+ join sep rest
  end.

(** [whole.includes(part)] *)
Definition includes (part whole : string) : Prop :=
  ∃ before after, whole = before +:+ part +:+ after.

(** The line feed of ["\n"]. *)
Definition LF : string := String (Ascii.ascii_of_nat 10) EmptyString.

End Js.

(** ** [Map<string, V>]: string keys, insertion order kept *)

Module JsMap.
Section JsMap.
Context {V : Type}.

Definition t : Type := list (string * V).

(** [new Map()] *)
Definition empty : t := [].

(** [map.get(key)] *)
Fixpoint get (key : string) (m : t) : option V :=
  match m with
  | [] => None
  | (k, v) :: rest => if String.eqb k key then Some v else get key rest
  end.

(** [map.has(key)] *)
Definition has (key : string) (m : t) : bool :=
  match get key m with Some _ => true | None => false end.

(** [map.set(key, value)]: an existing key keeps its place and takes the
    new value, a new key goes last. *)
Fixpoint set (key : string) (value : V) (m : t) : t :=
  match m with
  | [] => [(key, value)]
  | (k, v) :: rest =>
      if String.eqb k key then (k, value) :: rest
      else (k, v) :: set key value rest
  end.

(** [Array.from(map.keys())] and [Array.from(map.values())] *)
Definition keys (m : t) : list string := map fst m.
Definition values (m : t) : list V := map snd m.

End JsMap.
Arguments t V : clear implicits.
End JsMap.

(** ** Conversation memory: [MemoryService] *)

Module Memory.
Import Js.

Section Numbers.
(** A time is a [number] of the language: the milliseconds since the epoch
    that a caller passes or that [Date.now()] reads. The service stores a
    time as it is and renders it in template literals, [`${timestamp}`],
    which is the [Number::toString] of the language. *)
Context {Num : Type}.
Variable Number_toString : Num → string.

(** [Message], [Context], [Conversation] and [MemoryQueryOptions] are
    declared in memory/types.ts; the fields are the ones the service
    reads and writes. *)
Record Message : Type := mkMessage {
  msg_id : string;
  msg_role : string;
  msg_content : string;
  msg_timestamp : Num;
  msg_contextId : option string;
  msg_user_message_id : option string
}.

Record Context : Type := mkContext {
  ctx_id : string;
  ctx_type : string;
  ctx_content : string;
  ctx_timestamp : Num
}.

Record Conversation : Type := mkConversation {
  conv_id : string;
  conv_messages : list Message;
  conv_contexts : list Context
}.

Record MemoryQueryOptions : Type := mkQuery {
  q_conversationId : string;
  q_limit : option N
}.

(** The argument of [createConversation]: [{ id?: string }]. *)
Record ConversationOptions : Type := mkOptions {
  opt_id : option string
}.

(** The element type of the history that
    [getRecentConversationHistory] returns. *)
Record HistoryEntry : Type := mkEntry {
  role : string;
  content : string;
  timestamp : Num
}.

(** The [MemoryProvider] interface: every method acts on the state [Env]
    of the storage behind it, and may throw. *)
Record MemoryProvider (Env : Type) : Type := mkProvider {
  id : string;
  provider_storeMessage : Message → string → Env → Result unit * Env;
  provider_storeContext : Context → string → Env → Result unit * Env;
  provider_getMessages :
    MemoryQueryOptions → Env → Result (list Message) * Env;
  provider_getContexts : string → Env → Result (list Context) * Env;
  provider_getConversation : string → Env → Result Conversation * Env;
  provider_createConversation :
    option ConversationOptions → Env → Result string * Env;
  provider_deleteConversation : string → Env → Result unit * Env
}.
Arguments mkProvider {Env} _ _ _ _ _ _ _ _.
Arguments id {Env} _.
Arguments provider_storeMessage {Env} _ _ _ _.
Arguments provider_storeContext {Env} _ _ _ _.
Arguments provider_getMessages {Env} _ _ _.
Arguments provider_getContexts {Env} _ _ _.
Arguments provider_getConversation {Env} _ _ _.
Arguments provider_createConversation {Env} _ _ _.
Arguments provider_deleteConversation {Env} _ _ _.

(** A request that reached the persistence collaborator. *)
Inductive ProviderCall : Type :=
| CallStoreMessage (message : Message) (conversationId : string)
| CallStoreContext (context : Context) (conversationId : string)
| CallGetMessages (options : MemoryQueryOptions)
| CallGetContexts (conversationId : string)
| CallGetConversation (conversationId : string)
| CallCreateConversation (options : option ConversationOptions)
| CallDeleteConversation (conversationId : string).

Definition is_create (c : ProviderCall) : bool :=
  match c with CallCreateConversation _ => true | _ => false end.

Definition is_write (c : ProviderCall) : bool :=
  match c with
  | CallStoreMessage _ _ | CallStoreContext _ _ => true
  | _ => false
  end.

Section MemoryService.
(** [BaseContextItem] is declared in types/agent.ts: an item of the
    context chain, of which the service reads the [id] (absent on an item
    that has none). [JSON.stringify] serializes a chain, or throws: a
    [TypeError] on a chain that holds a [BigInt] or a cycle, or what a
    [toJSON] method of an item throws. Its outcome is a function of the
    chain: the items are data, and serializing them has no effect on the
    storage or on the events. *)
Context {Item : Type}.
Variable item_id : Item → option string.
Variable JSON_stringify : list Item → Result string.

(** The state of the storage and of the clock. *)
Context {Env : Type}.
Variable Date_now : Env → Num.

(** What the metadata of an event holds as it is: an item of the context
    chain, or a time. *)
Inductive Leaf : Type :=
| LItem (item : Item)
| LTime (time : Num).

(** What a run of the service acts on: the collaborator's state, the
    events published to [MonitorService], and the requests that reached
    the provider, oldest first. *)
Record World : Type := mkWorld {
  env : Env;
  events : list (Event Leaf);
  calls : list ProviderCall
}.

Record MemoryService : Type := mkService {
  provider : MemoryProvider Env
}.

(** [MonitorService.publishEvent(event)] *)
Definition publishEvent (event : Event Leaf) : Run World unit :=
  modify (λ w, mkWorld (env w) (events w ++ [event]) (calls w)).

(** A method call on [this.provider]. *)
Definition request {A} (c : ProviderCall) (method : Env → Result A * Env)
  : Run World A :=
  λ w, let '(r, e) := method (env w) in
       (r, mkWorld e (events w) (calls w ++ [c])).

(** [Date.now()] *)
Definition now : Run World Num := reads (λ w, Date_now (env w)).

(** [JSON.stringify(contextChain)] *)
Definition stringify (contextChain : list Item) : Run World string :=
  λ w, (JSON_stringify contextChain, w).

Definition message_meta (m : Message) : Meta Leaf :=
  MObj [("id", MStr (msg_id m)); ("role", MStr (msg_role m));
        ("content", MStr (msg_content m));
        ("timestamp", MVal (LTime (msg_timestamp m)));
        ("contextId", MOptStr (msg_contextId m));
        ("user_message_id", MOptStr (msg_user_message_id m))].

Definition context_meta (c : Context) : Meta Leaf :=
  MObj [("id", MStr (ctx_id c)); ("type", MStr (ctx_type c));
        ("content", MStr (ctx_content c));
        ("timestamp", MVal (LTime (ctx_timestamp c)))].

Definition query_meta (o : MemoryQueryOptions) : Meta Leaf :=
  MObj [("conversationId", MStr (q_conversationId o));
        ("limit",
         match q_limit o with Some n => MNum n | None => MUndefined end)].

Definition options_meta (o : option ConversationOptions) : Meta Leaf :=
  match o with
  | Some o => MObj [("id", MOptStr (opt_id o))]
  | None => MUndefined
  end.

(** [new MemoryService(provider)] *)
Definition new (provider : option (MemoryProvider Env))
  : Run World MemoryService :=
  match provider with
  | None => throw (JsError "Memory provider is required")
  | Some provider =>
      publishEvent
        (mkEvent "memory.service.initialized"
           ("Initialized memory service with provider: " +:+ id provider)
           LogInfo (MObj [("providerId", MStr (id provider))]));;
      mret (mkService provider)
  end.

Definition generateConversationId (user platform : string) : string :=
  platform +:+ "-" +:+ user.

Definition storeMessage (this : MemoryService)
    (message : Message) (conversationId : string) : Run World unit :=
  publishEvent
    (mkEvent "memory.service.store_message.called"
       "MemoryService.storeMessage called" LogInfo
       (MObj [("conversationId", MStr conversationId);
              ("message", message_meta message)]));;
  request (CallStoreMessage message conversationId)
    (provider_storeMessage (provider this) message conversationId).

Definition storeContext (this : MemoryService)
    (context : Context) (conversationId : string) : Run World unit :=
  publishEvent
    (mkEvent "memory.service.store_context.called"
       "MemoryService.storeContext called" LogInfo
       (MObj [("conversationId", MStr conversationId);
              ("context", context_meta context)]));;
  request (CallStoreContext context conversationId)
    (provider_storeContext (provider this) context conversationId).

Definition getMessages (this : MemoryService)
    (options : MemoryQueryOptions) : Run World (list Message) :=
  publishEvent
    (mkEvent "memory.service.get_messages.called"
       "MemoryService.getMessages called" LogInfo
       (MObj [("options", query_meta options)]));;
  request (CallGetMessages options)
    (provider_getMessages (provider this) options).

Definition getContexts (this : MemoryService)
    (conversationId : string) : Run World (list Context) :=
  publishEvent
    (mkEvent "memory.service.get_contexts.called"
       "MemoryService.getContexts called" LogInfo
       (MObj [("conversationId", MStr conversationId)]));;
  request (CallGetContexts conversationId)
    (provider_getContexts (provider this) conversationId).

Definition getConversation (this : MemoryService)
    (conversationId : string) : Run World Conversation :=
  publishEvent
    (mkEvent "memory.service.get_conversation.called"
       "MemoryService.getConversation called" LogInfo
       (MObj [("conversationId", MStr conversationId)]));;
  request (CallGetConversation conversationId)
    (provider_getConversation (provider this) conversationId).

Definition createConversation (this : MemoryService)
    (options : option ConversationOptions) : Run World string :=
  publishEvent
    (mkEvent "memory.service.create_conversation.called"
       "MemoryService.createConversation called" LogInfo
       (MObj [("options", options_meta options)]));;
  request (CallCreateConversation options)
    (provider_createConversation (provider this) options).

Definition deleteConversation (this : MemoryService)
    (conversationId : string) : Run World unit :=
  request (CallDeleteConversation conversationId)
    (provider_deleteConversation (provider this) conversationId).

(** Get or create a conversation for a user on a platform. *)
Definition getOrCreateConversation (this : MemoryService)
    (user platform : string) : Run World string :=
  let conversationId := generateConversationId user platform in
  try_catch
    (getConversation this conversationId;;
     mret conversationId)
    (λ _,
       (* Conversation doesn't exist, create it *)
       createConversation this (Some (mkOptions (Some conversationId)));;
       mret conversationId).

(** [n] invocations of [getOrCreateConversation] one after the other, each
    awaited (and its failure caught) before the next: their outcomes and
    the world they leave. *)
Fixpoint invocations (n : nat) (this : MemoryService)
    (user platform : string) (w : World)
  : list (Result string) * World :=
  match n with
  | O => ([], w)
  | S n =>
      let '(r, w) := getOrCreateConversation this user platform w in
      let '(rs, w) := invocations n this user platform w in
      (r :: rs, w)
  end.

(** Store a user interaction in memory. *)
Definition storeUserInteraction (this : MemoryService)
    (user platform message : string) (timestamp : Num)
    (messageId : option string) : Run World unit :=
  try_catch
    (publishEvent
       (mkEvent "memory.user.interaction.storing"
          "Storing user interaction" LogInfo
          (MObj [("user", MStr user); ("platform", MStr platform);
                 ("message", MStr message);
                 ("messageId", MOptStr messageId)]));;
     conversationId ← getOrCreateConversation this user platform;
     publishEvent
       (mkEvent "memory.conversation.retrieved" "Got conversation ID"
          LogInfo
          (MObj [("conversationId", MStr conversationId);
                 ("user", MStr user); ("platform", MStr platform)]));;
     (* Use provided messageId or generate one *)
     let finalMessageId :=
       or_else messageId (platform +:+ "-" +:+ Number_toString timestamp) in
     publishEvent
       (mkEvent "memory.message.id.generated" "Using message ID" LogInfo
          (MObj [("messageId", MStr finalMessageId);
                 ("wasProvided", MBool (truthy messageId))]));;
     (* Store the user's message *)
     storeMessage this
       (mkMessage finalMessageId "user" message timestamp None None)
       conversationId;;
     publishEvent
       (mkEvent "memory.message.stored" "Stored user message" LogInfo
          (MObj [("messageId", MStr finalMessageId);
                 ("conversationId", MStr conversationId)])))
    (λ error,
       publishEvent
         (mkEvent "memory.user.interaction.failed"
            "Failed to store user interaction" LogError
            (MObj [("error", MStr (error_text error));
                   ("user", MStr user); ("platform", MStr platform)]));;
       throw error).

(** The error of a context chain without a user message id. *)
Definition MissingReferenceError : Thrown :=
  JsError "No user message ID found in context chain".

(** Store an assistant interaction and its context in memory. *)
Definition storeAssistantInteraction (this : MemoryService)
    (user platform response : string) (contextChain : list Item)
    : Run World unit :=
  try_catch
    (publishEvent
       (mkEvent "memory.assistant.interaction.storing"
          "Storing assistant interaction" LogInfo
          (MObj [("user", MStr user); ("platform", MStr platform);
                 ("response", MStr response)]));;
     conversationId ← getOrCreateConversation this user platform;
     publishEvent
       (mkEvent "memory.conversation.retrieved" "Got conversation ID"
          LogInfo
          (MObj [("conversationId", MStr conversationId);
                 ("user", MStr user); ("platform", MStr platform)]));;
     timestamp ← now;
     let contextId :=
       conversationId +:+ "-context-" +:+ Number_toString timestamp in
     let messageId :=
       conversationId +:+ "-assistant-" +:+ Number_toString timestamp in
     (* Get the user's message ID from the context chain *)
     let userMessage := head contextChain in
     serialized ← stringify contextChain;
     publishEvent
       (mkEvent "memory.context.chain.processing"
          "Context chain user message" LogInfo
          (MObj [("userMessage",
                  match userMessage with
                  | Some item => MVal (LItem item)
                  | None => MUndefined
                  end);
                 ("contextChain", MStr serialized)]));;
     match userMessage ≫= item_id with
     | Some userMessageId =>
         if negb (truthy (Some userMessageId)) then
           throw MissingReferenceError
         else
           publishEvent
             (mkEvent "memory.message.id.extracted"
                "Using user message ID from context chain" LogInfo
                (MObj [("userMessageId", MStr userMessageId)]));;
           (* Store the context chain first *)
           content ← stringify contextChain;
           storeContext this
             (mkContext contextId "context_chain" content timestamp)
             conversationId;;
           publishEvent
             (mkEvent "memory.context.stored" "Stored context" LogInfo
                (MObj [("contextId", MStr contextId);
                       ("conversationId", MStr conversationId)]));;
           (* Then store the assistant's response with reference to the
              context and user message *)
           storeMessage this
             (mkMessage messageId "assistant" response timestamp
                (Some contextId) (Some userMessageId))
             conversationId;;
           publishEvent
             (mkEvent "memory.assistant.interaction.completed"
                "Successfully stored assistant interaction and context"
                LogInfo
                (MObj [("messageId", MStr messageId);
                       ("contextId", MStr contextId);
                       ("conversationId", MStr conversationId)]))
     | None => throw MissingReferenceError
     end)
    (λ error,
       publishEvent
         (mkEvent "memory.assistant.interaction.failed"
            "Failed to store assistant interaction" LogError
            (MObj [("error", MStr (error_text error));
                   ("user", MStr user); ("platform", MStr platform)]));;
       throw error).

(** Get recent conversation history for a user/platform; [limit] is 100
    when the caller leaves it out. *)
Definition getRecentConversationHistory (this : MemoryService)
    (user platform : string) (limit : option N)
    : Run World (list HistoryEntry) :=
  let limit := default 100%N limit in
  try_catch
    (let conversationId := generateConversationId user platform in
     messages ← getMessages this (mkQuery conversationId (Some limit));
     mret (map (λ msg,
                  mkEntry (msg_role msg) (msg_content msg)
                    (msg_timestamp msg))
             messages))
    (λ error,
       publishEvent
         (mkEvent "memory.conversation.history.failed"
            "Failed to get conversation history" LogError
            (MObj [("error", MStr (error_text error));
                   ("user", MStr user); ("platform", MStr platform)]));;
       mret []).

End MemoryService.
End Numbers.

Arguments mkProvider {Num Env} _ _ _ _ _ _ _ _.
Arguments id {Num Env} _.
Arguments provider_storeMessage {Num Env} _ _ _ _.
Arguments provider_storeContext {Num Env} _ _ _ _.
Arguments provider_getMessages {Num Env} _ _ _.
Arguments provider_getContexts {Num Env} _ _ _.
Arguments provider_getConversation {Num Env} _ _ _.
Arguments provider_createConversation {Num Env} _ _ _.
Arguments provider_deleteConversation {Num Env} _ _ _.

End Memory.

(** ** Model providers: [ModelProviderBase] and [LoggingModelDecorator] *)

Module Model.
Import Js.

Section ModelProvider.
(** The values capabilities take and return, the schemas that describe
    them ([input], [output]) and the numbers of a request configuration
    are kept as they come. [W] is whatever capability executions act on
    (the remote model, the clock, ...). *)
Context {Val Schema Num W : Type}.

(** [new Date().toISOString()] *)
Variable toISOString : W → string.

(** Configuration for model requests. *)
Record ModelRequestConfig : Type := mkConfig {
  temperature : option Num;
  maxTokens : option Num;
  stopSequences : option (list string)
}.

Inductive Leaf : Type :=
| LVal (v : Val)
| LNum (n : Num).

Definition config_meta (config : option ModelRequestConfig) : Meta Leaf :=
  match config with
  | None => MUndefined
  | Some c =>
      let num (o : option Num) : Meta Leaf :=
        match o with Some n => MVal (LNum n) | None => MUndefined end in
      MObj [("temperature", num (temperature c));
            ("maxTokens", num (maxTokens c));
            ("stopSequences",
             match stopSequences c with
             | Some l => MArr (map MStr l)
             | None => MUndefined
             end)]
  end.

(** What the execution of a capability acts on: the outside world and the
    events published to [MonitorService]. *)
Record Env : Type := mkEnv {
  world : W;
  sink : list (Event Leaf)
}.

(** [MonitorService.publishEvent(event)] *)
Definition publishEvent (event : Event Leaf) : Run Env unit :=
  modify (λ e, mkEnv (world e) (sink e ++ [event])).

(** [ModelCapability], declared in models/capabilities.ts. *)
Record ModelCapability : Type := mkCapability {
  cap_id : string;
  cap_name : string;
  cap_description : string;
  cap_input : Schema;
  cap_output : Schema;
  execute : Val → option ModelRequestConfig → Run Env Val
}.

(** The [Map] objects of the heap. A provider holds a reference to its
    table, so that two providers can share a live table or not. *)
Abbreviation Heap := (list (JsMap.t ModelCapability)).

(** A model provider object. Its fields are read-only; [capabilities] is
    the address of its table. *)
Record ModelProvider : Type := mkModel {
  id : string;
  name : string;
  description : string;
  capabilities : nat;
  checkHealth : Run Env unit;
  init : option (Run Env unit)
}.

(** The constructor of [ModelProviderBase], with the methods the subclass
    supplies: it allocates [new Map()]. *)
Definition ModelProviderBase (id name description : string)
    (checkHealth : Run Env unit) (init : option (Run Env unit))
    (h : Heap) : ModelProvider * Heap :=
  (mkModel id name description (length h) checkHealth init,
   h ++ [JsMap.empty]).

(** The table [this.capabilities] points to. *)
Definition table (this : ModelProvider) (h : Heap)
  : JsMap.t ModelCapability :=
  default JsMap.empty (h !! capabilities this).

Definition addCapability (this : ModelProvider)
    (capability : ModelCapability) (h : Heap) : Heap :=
  alter (JsMap.set (cap_id capability) capability) (capabilities this) h.

Definition getCapability (this : ModelProvider) (capabilityId : string)
    (h : Heap) : option ModelCapability :=
  JsMap.get capabilityId (table this h).

Definition getCapabilities (this : ModelProvider) (h : Heap)
  : list ModelCapability :=
  JsMap.values (table this h).

Definition hasCapability (this : ModelProvider) (capabilityId : string)
    (h : Heap) : bool :=
  JsMap.has capabilityId (table this h).

(** The error of a capability that the provider does not have. *)
Definition NotFoundError (capabilityId providerId : string) : Thrown :=
  JsError
    ("Capability " +:+ capabilityId +:+ " not found on model " +:+ providerId).

Definition executeCapability (this : ModelProvider)
    (capabilityId : string) (input : Val)
    (config : option ModelRequestConfig) (h : Heap) : Run Env Val :=
  match JsMap.get capabilityId (table this h) with
  | None => throw (NotFoundError capabilityId (id this))
  | Some capability => execute capability input config
  end.

Definition prompt_event (this_id : string) (capability : ModelCapability)
    (input : Val) (config : option ModelRequestConfig) : Event Leaf :=
  mkEvent "model.capability.prompt"
    ("Model " +:+ this_id +:+ " sending prompt to capability "
       +:+ cap_id capability)
    LogDebug
    (MObj [("model", MStr this_id);
           ("capability", MStr (cap_id capability));
           ("input", MVal (LVal input));
           ("config", config_meta config)]).

Definition response_event (this_id : string) (capability : ModelCapability)
    (response : Val) (timestamp : string)
    (config : option ModelRequestConfig) : Event Leaf :=
  mkEvent "model.capability.response"
    ("Model " +:+ this_id +:+ " received response from capability "
       +:+ cap_id capability)
    LogDebug
    (MObj [("model", MStr this_id);
           ("capability", MStr (cap_id capability));
           ("response", MVal (LVal response));
           ("execution_metadata",
            MObj [("timestamp", MStr timestamp);
                  ("config", config_meta config)])]).

Definition error_event (this_id : string) (capability : ModelCapability)
    (error : Thrown) (input : Val) : Event Leaf :=
  mkEvent "model.capability.error"
    ("Model " +:+ this_id +:+ " encountered error with capability "
       +:+ cap_id capability)
    LogError
    (MObj [("model", MStr this_id);
           ("capability", MStr (cap_id capability));
           ("error", MStr (error_text error));
           ("status", MStr "failed");
           ("input", MVal (LVal input))]).

(** The events of a capability execution by kind: the begin event is the
    prompt event, the terminal events are the response event and the error
    event. *)
Definition is_begin (event : Event Leaf) : bool :=
  String.eqb (type event) "model.capability.prompt".

Definition is_terminal (event : Event Leaf) : bool :=
  String.eqb (type event) "model.capability.response"
  || String.eqb (type event) "model.capability.error".

Definition count (kind : Event Leaf → bool) (events : list (Event Leaf))
  : nat :=
  length (List.filter kind events).

(** The [execute] of a decorated capability. *)
Definition decorated_execute (this_id : string)
    (capability : ModelCapability)
    (input : Val) (config : option ModelRequestConfig) : Run Env Val :=
  try_catch
    ((* Log the input *)
     publishEvent (prompt_event this_id capability input config);;
     (* Execute the capability *)
     response ← execute capability input config;
     (* Log the response *)
     timestamp ← reads (λ e, toISOString (world e));
     publishEvent
       (response_event this_id capability response timestamp config);;
     mret response)
    (λ error,
       (* Log any errors *)
       publishEvent (error_event this_id capability error input);;
       throw error).

Definition decoratedCapability (this_id : string)
    (capability : ModelCapability) : ModelCapability :=
  mkCapability (cap_id capability) (cap_name capability)
    (cap_description capability) (cap_input capability)
    (cap_output capability) (decorated_execute this_id capability).

(** The constructor of [LoggingModelDecorator]: [super(...)], then every
    capability that [model.getCapabilities()] returns is added in its
    decorated form. [checkHealth] and [init] are those of [model]. *)
Definition LoggingModelDecorator (model : ModelProvider) (h : Heap)
  : ModelProvider * Heap :=
  let '(this, h) :=
    ModelProviderBase (id model) (name model) (description model)
      (checkHealth model)
      (Some (match init model with
             | Some model_init => model_init
             | None => mret ()
             end))
      h in
  (this,
   fold_left
     (λ h capability,
        addCapability this (decoratedCapability (id this) capability) h)
     (getCapabilities model h) h).

(** The table that the loop of the constructor builds from the
    capabilities it iterates over. *)
Definition decorated_table (this_id : string)
    (capabilities : list ModelCapability) : JsMap.t ModelCapability :=
  fold_left
    (λ m capability,
       JsMap.set (cap_id capability)
         (decoratedCapability this_id capability) m)
    capabilities JsMap.empty.

End ModelProvider.
End Model.

(** ** The plugin registry: [PluginRegistry] *)

Module Registry.
Import Js.

(** The value found in [plugin.id]: a string, or something else, known
    through its truthiness and its [typeof]. *)
Inductive IdValue : Type :=
| IdString (s : string)
| IdOther (is_truthy : bool) (typeof : string).

Definition as_string (id : IdValue) : string :=
  match id with IdString s => s | IdOther _ _ => "" end.

(** The double quote. *)
Definition DQ : string := String (Ascii.ascii_of_nat 34) EmptyString.

Section PluginRegistry.
(** [Plugin] is declared in plugin.ts; the registry reads its [id]. *)
Context {Plugin : Type}.
Variable plugin_id : Plugin → IdValue.

Record PluginRegistry : Type := mkRegistry {
  plugins : JsMap.t Plugin;
  events : list (Event Empty_set)
}.

(** [MonitorService.publishEvent(event)] *)
Definition publishEvent (event : Event Empty_set)
  : Run PluginRegistry unit :=
  modify (λ this, mkRegistry (plugins this) (events this ++ [event])).

Definition validation_failed (fields : list (string * Meta Empty_set))
  : Event Empty_set :=
  mkEvent "registry.plugin.validation.failed" "Plugin ID validation failed"
    LogError (MObj fields).

(** Validate plugin ID format. *)
Definition validatePluginId (id : IdValue) : Run PluginRegistry unit :=
  match id with
  | IdOther false _ | IdString "" =>
      publishEvent (validation_failed [("error", MStr "ID cannot be empty")]);;
      throw (JsError "Plugin ID cannot be empty")
  | IdOther true typeof =>
      publishEvent
        (validation_failed [("error", MStr "ID must be a string");
                            ("received", MStr typeof)]);;
      throw (JsError "Plugin ID must be a string")
  | IdString id =>
      if negb (String.prefix "plugin-" id) then
        publishEvent
          (validation_failed
             [("error",
               MStr ("ID must start with " +:+ DQ +:+ "plugin-" +:+ DQ));
              ("id", MStr id)]);;
        throw
          (JsError ("Plugin ID must start with " +:+ DQ +:+ "plugin-" +:+ DQ))
      else mret ()
  end.

(** The error of a plugin id that is already registered. *)
Definition CollisionError (id : string) (existing : list string) : Thrown :=
  JsError
    ("Plugin ID collision: " +:+ id +:+ " is already registered." +:+ LF
       +:+ "Currently registered plugins: " +:+ join ", " existing).

(** Register a new plugin. *)
Definition register (plugin : option Plugin) : Run PluginRegistry unit :=
  match plugin with
  | None =>
      publishEvent
        (mkEvent "registry.plugin.registration.failed"
           "Plugin registration failed" LogError
           (MObj [("error", MStr "Plugin is null or undefined")]));;
      throw (JsError "Cannot register null or undefined plugin")
  | Some plugin =>
      validatePluginId (plugin_id plugin);;
      let id := as_string (plugin_id plugin) in
      has ← reads (λ this, JsMap.has id (plugins this));
      if has : bool then
        existing ← reads (λ this, JsMap.keys (plugins this));
        publishEvent
          (mkEvent "registry.plugin.id.collision" "Plugin ID collision"
             LogError
             (MObj [("id", MStr id);
                    ("existingPlugins", MArr (map MStr existing))]));;
        throw (CollisionError id existing)
      else
        modify (λ this,
                  mkRegistry (JsMap.set id plugin (plugins this))
                    (events this))
  end.

(** Get a plugin by id. *)
Definition getPlugin (id : string) : Run PluginRegistry (option Plugin) :=
  plugin ← reads (λ this, JsMap.get id (plugins this));
  match plugin with
  | None =>
      available ← reads (λ this, JsMap.keys (plugins this));
      publishEvent
        (mkEvent "registry.plugin.not_found" "Plugin not found" LogWarn
           (MObj [("id", MStr id);
                  ("availablePlugins", MArr (map MStr available))]))
  | Some _ => mret ()
  end;;
  mret plugin.

(** Get all registered plugins. *)
Definition getAllPlugins : Run PluginRegistry (list Plugin) :=
  reads (λ this, JsMap.values (plugins this)).

End PluginRegistry.
End Registry.

(** ** Persistence collaborators to run the service against *)

Module Providers.
Import Js Memory.

(** Sample times: the integers from 0 to 2^53 - 1, which are numbers of
    the language and which a template literal renders in decimal. *)
Record Millis : Type := mkMillis {
  ms : N;
  ms_safe : (ms <? 2 ^ 53)%N = true
}.

Definition Millis_toString (time : Millis) : string := pretty (ms time).

Definition at_1000 : Millis := mkMillis 1000 eq_refl.
Definition at_2000 : Millis := mkMillis 2000 eq_refl.

(** The state of a store kept in memory: the conversations by id, and the
    time the clock shows. *)
Record Store : Type := mkStore {
  conversations : list (string * Conversation (Num := Millis));
  clock : Millis
}.

Definition lookup_conversation (conversationId : string) (s : Store)
  : option (Conversation (Num := Millis)) :=
  JsMap.get conversationId (conversations s).

Definition put_conversation (c : Conversation (Num := Millis)) (s : Store)
  : Store :=
  mkStore (JsMap.set (conv_id c) c (conversations s)) (clock s).

Definition not_found {A} (conversationId : string) (s : Store)
  : Result A * Store :=
  (inl (JsError ("Conversation not found: " +:+ conversationId)), s).

(** Modelled from the spec: the persistence collaborator, of which the
    repository's sources hold only the calls made to it. Its interface is
    [storeMessage(Message, conversationId)],
    [storeContext(Context, conversationId)],
    [getMessages(options: {conversationId, limit?}) -> sequence of Message],
    [getContexts(conversationId) -> sequence of Context],
    [getConversation(conversationId) -> Conversation] (fails if absent),
    [createConversation(options?: {id?}) -> conversationId] and
    [deleteConversation(conversationId)]; messages and contexts are
    append-only, ordered sequences of their conversation. *)
Definition in_memory : MemoryProvider (Num := Millis) Store :=
  mkProvider "in-memory"
    (λ message conversationId s,
       match lookup_conversation conversationId s with
       | Some c =>
           (inr (),
            put_conversation
              (mkConversation (conv_id c) (conv_messages c ++ [message])
                 (conv_contexts c)) s)
       | None => not_found conversationId s
       end)
    (λ context conversationId s,
       match lookup_conversation conversationId s with
       | Some c =>
           (inr (),
            put_conversation
              (mkConversation (conv_id c) (conv_messages c)
                 (conv_contexts c ++ [context])) s)
       | None => not_found conversationId s
       end)
    (λ options s,
       match lookup_conversation (q_conversationId options) s with
       | Some c =>
           (inr (match q_limit options with
                 | Some n => take (N.to_nat n) (conv_messages c)
                 | None => conv_messages c
                 end), s)
       | None => not_found (q_conversationId options) s
       end)
    (λ conversationId s,
       match lookup_conversation conversationId s with
       | Some c => (inr (conv_contexts c), s)
       | None => not_found conversationId s
       end)
    (λ conversationId s,
       match lookup_conversation conversationId s with
       | Some c => (inr c, s)
       | None => not_found conversationId s
       end)
    (λ options s,
       let conversationId :=
         default ("conversation-" +:+ Millis_toString (clock s))
           (options ≫= opt_id) in
       (inr conversationId,
        put_conversation (mkConversation conversationId [] []) s))
    (λ conversationId s,
       (inr (),
        mkStore
          (List.filter (λ kv, negb (String.eqb (fst kv) conversationId))
             (conversations s))
          (clock s))).

(** A collaborator whose storage cannot be reached: every request fails. *)
Definition unavailable : Thrown := JsError "storage unavailable".

Definition unreachable : MemoryProvider (Num := Millis) Millis :=
  mkProvider "unreachable"
    (λ _ _ s, (inl unavailable, s))
    (λ _ _ s, (inl unavailable, s))
    (λ _ s, (inl unavailable, s))
    (λ _ s, (inl unavailable, s))
    (λ _ s, (inl unavailable, s))
    (λ _ s, (inl unavailable, s))
    (λ _ s, (inl unavailable, s)).

(** Sample items of a context chain: the user message
    [{ id: "web-1000" }], the item without id [{}], and the item
    [{ tokens: 10n }], which has no id and holds a [BigInt]. *)
Inductive Item : Type :=
| user_message
| anonymous
| counted.

Definition item_id (item : Item) : option string :=
  match item with
  | user_message => Some "web-1000"
  | anonymous | counted => None
  end.

(** The double quote of JSON. *)
Definition quote : string := String (Ascii.ascii_of_nat 34) EmptyString.

(** [JSON.stringify] on a sample item: it refuses a [BigInt] with a
    [TypeError]. *)
Definition item_json (item : Item) : Result string :=
  match item with
  | user_message =>
      inr ("{" +:+ quote +:+ "id" +:+ quote +:+ ":"
             +:+ quote +:+ "web-1000" +:+ quote +:+ "}")
  | anonymous => inr "{}"
  | counted => inl (JsError "Do not know how to serialize a BigInt")
  end.

(** [JSON.stringify] on a chain of sample items: the items in order,
    separated by commas, between brackets; it throws what the first item
    that it cannot serialize makes it throw. *)
Fixpoint items_json_each (chain : list Item) : Result (list string) :=
  match chain with
  | [] => inr []
  | item :: rest =>
      match item_json item with
      | inl error => inl error
      | inr text =>
          match items_json_each rest with
          | inl error => inl error
          | inr texts => inr (text :: texts)
          end
      end
  end.

Definition items_json (chain : list Item) : Result string :=
  match items_json_each chain with
  | inl error => inl error
  | inr texts => inr ("[" +:+ join "," texts +:+ "]")
  end.

(** The serialization of the chain [[{ id: "web-1000" }]]. *)
Definition user_message_json : string :=
  "[{" +:+ quote +:+ "id" +:+ quote +:+ ":"
    +:+ quote +:+ "web-1000" +:+ quote +:+ "}]".

Definition start {Env} (e : Env)
  : World (Num := Millis) (Item := Item) (Env := Env) :=
  mkWorld e [] [].

(** A store without conversations, at time 2000. *)
Definition empty_store : Store := mkStore [] at_2000.

Definition service {Env} (p : MemoryProvider (Num := Millis) Env)
  : MemoryService :=
  mkService p.

(** The end-to-end scenario: a user message at time 1000, the answer of the
    assistant (at the time of the clock), then a read of the conversation. *)
Definition scenario
  : Run (World (Num := Millis) (Item := Item) (Env := Store))
      (list Message) :=
  storeUserInteraction Millis_toString (service in_memory)
    "alice" "web" "hi" at_1000 None;;
  storeAssistantInteraction Millis_toString item_id items_json clock
    (service in_memory) "alice" "web" "hello" [user_message];;
  getMessages (service in_memory) (mkQuery "web-alice" None).

End Providers.

(** ** A model provider to run the decorator on *)

Module Samples.
Import Js Model.

(** Capabilities over strings, in a world that is the time of its clock. *)
Definition Capability : Type :=
  ModelCapability (Val := string) (Schema := unit) (Num := N) (W := N).

Definition Provider : Type :=
  ModelProvider (Val := string) (Num := N) (W := N).

Definition toISOString (time : N) : string := "T+" +:+ pretty time.

(** A capability that answers, and takes one unit of time to do so. *)
Definition text_generation : Capability :=
  mkCapability "text-generation" "Text generation" "Generates text" () ()
    (λ input _ e, (inr ("echo " +:+ input), mkEnv (world e + 1)%N (sink e))).

(** A capability that fails. *)
Definition image_generation : Capability :=
  mkCapability "image-generation" "Image generation" "Generates images"
    () ()
    (λ _ _ e, (inl (JsError "rate limited"), e)).

(** A capability added after the provider has been wrapped. *)
Definition audio_generation : Capability :=
  mkCapability "audio-generation" "Audio generation" "Generates audio"
    () ()
    (λ input _ e, (inr ("sound of " +:+ input), e)).

(** [new Provider("openai", ...)] with two capabilities, on an empty heap. *)
Definition openai : Provider * list (JsMap.t Capability) :=
  let '(model, h) :=
    ModelProviderBase "openai" "OpenAI" "OpenAI models" (mret ()) None [] in
  (model,
   addCapability model image_generation
     (addCapability model text_generation h)).

(** [new LoggingModelDecorator(openai)] *)
Definition logged : Provider * list (JsMap.t Capability) :=
  LoggingModelDecorator toISOString openai.1 openai.2.

Definition quiet : Env (Val := string) (Num := N) (W := N) := mkEnv 7%N [].

End Samples.

(** ** Plugins to register *)

Module Plugins.
Import Js Registry.

(** What a plugin tells the registry about itself. *)
Record Plugin : Type := mkPlugin {
  id : IdValue;
  name : string;
  description : string
}.

(** The character plugin, and another plugin that claims the same id. *)
Definition character : Plugin :=
  mkPlugin (IdString "plugin-character") "Character"
    "Handles character related context injection for the agent".

Definition impostor : Plugin :=
  mkPlugin (IdString "plugin-character") "Impostor" "Claims the same id".

Definition search : Plugin :=
  mkPlugin (IdString "plugin-search") "Search" "Searches the web".

(** A registry that holds the search plugin. *)
Definition registry : PluginRegistry :=
  mkRegistry [("plugin-search", search)] [].

End Plugins.

(** ** A collaborator that cannot be written to *)

Module ReadOnly.
Import Js Memory Providers.

(** The store kept in memory, with its two append requests refused:
    conversations are fetched and created, messages and contexts are not
    stored. *)
Definition refused : Thrown := JsError "storage is read-only".

Definition read_only : MemoryProvider (Num := Millis) Store :=
  mkProvider "read-only"
    (λ _ _ s, (inl refused, s))
    (λ _ _ s, (inl refused, s))
    (provider_getMessages in_memory)
    (provider_getContexts in_memory)
    (provider_getConversation in_memory)
    (provider_createConversation in_memory)
    (provider_deleteConversation in_memory).

End ReadOnly.

(** ** A collaborator whose fetches can time out *)

Module Flaky.
Import Js Memory Providers.

(** The store kept in memory behind a connection that can time out:
    [timeouts] tells, for the fetches to come, which of them time out. A
    fetch that times out leaves the store as it is. *)
Record Connection : Type := mkConnection {
  kept : Store;
  timeouts : list bool
}.

Definition timeout : Thrown := JsError "timeout".

Definition on_store {A} (method : Store → Result A * Store)
    (s : Connection) : Result A * Connection :=
  let '(r, kept) := method (kept s) in
  (r, mkConnection kept (timeouts s)).

(** The requests are those of the store kept in memory, but for two: a
    fetch times out when its turn says so, and a create with the id of a
    conversation that exists keeps that conversation as it is. *)
Definition flaky : MemoryProvider (Num := Millis) Connection :=
  mkProvider "flaky"
    (λ message conversationId,
       on_store (provider_storeMessage in_memory message conversationId))
    (λ context conversationId,
       on_store (provider_storeContext in_memory context conversationId))
    (λ options, on_store (provider_getMessages in_memory options))
    (λ conversationId,
       on_store (provider_getContexts in_memory conversationId))
    (λ conversationId s,
       match timeouts s with
       | true :: rest => (inl timeout, mkConnection (kept s) rest)
       | false :: rest =>
           on_store (provider_getConversation in_memory conversationId)
             (mkConnection (kept s) rest)
       | [] =>
           on_store (provider_getConversation in_memory conversationId) s
       end)
    (λ options s,
       match options ≫= opt_id with
       | Some conversationId =>
           match lookup_conversation conversationId (kept s) with
           | Some _ => (inr conversationId, s)
           | None =>
               on_store (provider_createConversation in_memory options) s
           end
       | None => on_store (provider_createConversation in_memory options) s
       end)
    (λ conversationId,
       on_store (provider_deleteConversation in_memory conversationId)).

(** A connection to a store without conversations, at time 2000, whose
    second fetch times out. *)
Definition second_fetch_times_out : Connection :=
  mkConnection empty_store [false; true; false].

End Flaky.

(** ** Conversation ids and hyphens *)

Module Hyphens.

(** The character of ["-"]. *)
Definition hyphen : Ascii.ascii := Eval cbv in Ascii.ascii_of_nat 45.

(** No ["-"] occurs in the string. *)
Fixpoint hyphen_free (s : string) : bool :=
  match s with
  | EmptyString => true
  | String c rest => negb (Ascii.eqb c hyphen) && hyphen_free rest
  end.

End Hyphens.

(** ** Tables keyed by the id of what they hold *)

Module Keyed.
Import Model.

Section Keyed.
Context {Val Schema Num W : Type}.

(** Every capability sits under its own id, and no id occurs twice: the
    shape of a table that only [addCapability] has written to. *)
Definition keyed_by_id
    (m : JsMap.t (ModelCapability (Val := Val) (Schema := Schema)
                    (Num := Num) (W := W))) : Prop :=
  Forall (λ kv, kv.1 = cap_id kv.2) m ∧ NoDup (JsMap.keys m).

End Keyed.
End Keyed.

(** ** The shape of a registry, and registrations in a row *)

Module RegistryShape.
Import Js Registry.

Section Shape.
Context {Plugin : Type}.
Variable plugin_id : Plugin → IdValue.

(** Every plugin sits under its own id, a string that begins with
    [plugin-], and no id occurs twice. *)
Definition well_formed (this : PluginRegistry (Plugin := Plugin)) : Prop :=
  Forall
    (λ kv, plugin_id kv.2 = IdString kv.1
           ∧ String.prefix "plugin-" kv.1 = true)
    (plugins this)
  ∧ NoDup (JsMap.keys (plugins this)).

(** [for (const plugin of list) registry.register(plugin)]: the
    registrations of a list of plugins one after the other, up to the
    first that throws. *)
Fixpoint register_each (list : list Plugin) : Run PluginRegistry unit :=
  match list with
  | [] => mret ()
  | plugin :: rest =>
      register plugin_id (Some plugin);;
      register_each rest
  end.

End Shape.
End RegistryShape.

(** ** The chat client: [Chat], components/Chat.tsx *)

Module Chat.
Import Js.

Section Chat.
(** The numbers of JSON, with their truthiness (zero is falsy). *)
Context {Num : Type}.
Variable nonzero : Num → bool.

(** [String.prototype.trim] *)
Variable trim : string → string.

(** The [TypeError] of a property read on [null]. *)
Variable null_read : Thrown.

(** A value that [response.json()] returns. An object is kept as the list
    of its properties. *)
#[warnings="-register-all"]
Inductive Json : Type :=
| JNull
| JBool (b : bool)
| JNum (n : Num)
| JStr (s : string)
| JArr (items : list Json)
| JObj (properties : list (string * Json)).

(** Truthiness of a value, and of a property that may be missing. *)
Definition json_truthy (v : Json) : bool :=
  match v with
  | JNull => false
  | JBool b => b
  | JNum n => nonzero n
  | JStr s => negb (String.eqb s "")
  | JArr _ | JObj _ => true
  end.

(** [data.message]: a property read, which throws on [null] and gives
    [undefined] on a value that has no such property. *)
Definition read_message {S} (data : Json) : Run S (option Json) :=
  match data with
  | JNull => throw null_read
  | JObj properties => mret (JsMap.get "message" properties)
  | JBool _ | JNum _ | JStr _ | JArr _ => mret None
  end.

Inductive Sender : Type := user | agent.

(** [interface Message]; [content] is declared a string, and holds whatever
    the reply put there. *)
Record Message : Type := mkMessage {
  content : Json;
  sender : Sender;
  timestamp : N
}.

(** The state of the component that [handleSend] reads and updates. *)
Record State : Type := mkState {
  messages : list Message;
  input : string
}.

(** What a render of the component gives to its handlers: the values they
    close over. *)
Record Render : Type := mkRender {
  connected : bool;
  rendered_input : string;
  username : string;
  chatApiUrl : string
}.

(** The request of [fetch(chatApiUrl, { method: "POST", headers, body })],
    the body being that of [JSON.stringify({ message, user })]. *)
Record Request : Type := mkRequest {
  url : string;
  method : string;
  content_type : string;
  body_message : string;
  body_user : string
}.

(** How a request ends: [fetch] rejects, [response.json()] rejects, or a
    value is read. *)
Inductive Reply : Type :=
| NetworkFailure (error : Thrown)
| BodyNotJson (error : Thrown)
| Body (data : Json).

(** An exchange with the server: its reply, the time it takes, and what
    other handlers do to the state of the component in the meantime. *)
Record Exchange : Type := mkExchange {
  reply : Reply;
  elapsed : N;
  meanwhile : State → State
}.

Inductive ConsoleEntry : Type :=
| ConsoleLog (label : string) (data : Json)
| ConsoleError (label : string) (error : Thrown).

(** The browser: the state of the component, the clock, the requests sent
    so far, the console, and the way the server answers. *)
Record Browser : Type := mkBrowser {
  state : State;
  time : N;
  requests : list Request;
  console : list ConsoleEntry;
  server : Request → Exchange
}.

(** [Date.now()] *)
Definition now : Run Browser N := reads time.

(** [setMessages((prev) => [...prev, message])] *)
Definition appendMessage (message : Message) : Run Browser unit :=
  modify (λ b,
    mkBrowser (mkState (messages (state b) ++ [message]) (input (state b)))
      (time b) (requests b) (console b) (server b)).

(** [setInput(value)] *)
Definition setInput (value : string) : Run Browser unit :=
  modify (λ b,
    mkBrowser (mkState (messages (state b)) value)
      (time b) (requests b) (console b) (server b)).

Definition console_log (label : string) (data : Json) : Run Browser unit :=
  modify (λ b,
    mkBrowser (state b) (time b) (requests b)
      (console b ++ [ConsoleLog label data]) (server b)).

Definition console_error (label : string) (error : Thrown)
  : Run Browser unit :=
  modify (λ b,
    mkBrowser (state b) (time b) (requests b)
      (console b ++ [ConsoleError label error]) (server b)).

(** [await fetch(...)] followed by [await response.json()]: the request
    goes out, time passes, the state of the component moves on, and the
    reply comes back. *)
Definition fetch_json (request : Request) : Run Browser Json :=
  λ b,
    let exchange := server b request in
    let b' :=
      mkBrowser (meanwhile exchange (state b)) (time b + elapsed exchange)%N
        (requests b ++ [request]) (console b) (server b) in
    match reply exchange with
    | NetworkFailure error | BodyNotJson error => (inl error, b')
    | Body data => (inr data, b')
    end.

Definition handleSend (render : Render) : Run Browser unit :=
  let input := rendered_input render in
  if String.eqb (trim input) "" || negb (connected render) then mret ()
  else
    timestamp ← now;
    let userMessage := mkMessage (JStr input) user timestamp in
    appendMessage userMessage;;
    setInput "";;
    try_catch
      (data ← fetch_json
                (mkRequest (chatApiUrl render) "POST" "application/json"
                   input (username render));
       console_log "Server response:" data;;
       content ← match data with
                 | JStr _ => mret data
                 | _ =>
                     message ← read_message data;
                     mret (match message with
                           | Some value =>
                               if json_truthy value then value
                               else JStr "No response received"
                           | None => JStr "No response received"
                           end)
                 end;
       timestamp ← now;
       let agentMessage := mkMessage content agent timestamp in
       appendMessage agentMessage)
      (λ error,
         console_error "Error sending message:" error;;
         timestamp ← now;
         let errorMessage :=
           mkMessage
             (JStr "Error: Could not send message. Please try again.")
             agent timestamp in
         appendMessage errorMessage).

(** A key event, as far as [handleKeyPress] looks at it. *)
Record KeyboardEvent : Type := mkKey {
  key : string;
  shiftKey : bool
}.

(** [handleKeyPress]: whether the default action was prevented, after the
    send it started has run. *)
Definition handleKeyPress (render : Render) (event : KeyboardEvent)
  : Run Browser bool :=
  if String.eqb (key event) "Enter" && negb (shiftKey event) then
    handleSend render;;
    mret true
  else mret false.

(** [handleSubmit] *)
Definition handleSubmit (render : Render) : Run Browser bool :=
  handleSend render;;
  mret true.

End Chat.
End Chat.

(** ** A browser to run the chat client in *)

Module ChatSamples.
Import Js Chat.

(** Integers for the numbers of JSON. *)
Definition nonzero (n : Z) : bool := negb (Z.eqb n 0).

(** [trim] for the spaces of ASCII. *)
Definition space : Ascii.ascii := Eval cbv in Ascii.ascii_of_nat 32.

Fixpoint trim_start (s : string) : string :=
  match s with
  | String c rest => if Ascii.eqb c space then trim_start rest else s
  | EmptyString => EmptyString
  end.

Definition trim (s : string) : string :=
  String.rev (trim_start (String.rev (trim_start s))).

Definition null_read : Thrown :=
  JsError "Cannot read properties of null (reading 'message')".

(** A server that greets whoever writes to it, after 5 milliseconds. *)
Definition greeter (request : Request) : Exchange (Num := Z) :=
  mkExchange
    (Body (JObj [("message", JStr ("hello " +:+ body_user request))]))
    5 (λ state, state).

(** A server that cannot be reached. *)
Definition offline (request : Request) : Exchange (Num := Z) :=
  mkExchange (NetworkFailure (JsError "Failed to fetch")) 5 (λ state, state).

Definition browser (server : Request → Exchange (Num := Z)) : Browser :=
  mkBrowser (mkState [] "hi") 1000 [] [] server.

Definition render_hi : Render :=
  mkRender true "hi" "user-name" "http://localhost:3002/chat".

Definition render_blank : Render :=
  mkRender true "   " "user-name" "http://localhost:3002/chat".

End ChatSamples.

(** * Properties *)

(** ** Maps *)

Module JsMapFacts.
Import JsMap.

Section Facts.
Context {V : Type}.
Implicit Types (m : JsMap.t V) (key : string) (value : V).

Lemma get_set_eq key value m : get key (set key value m) = Some value.
Proof.
  induction m as [|[k v] rest IH]; simpl.
  - by rewrite String.eqb_refl.
  - destruct (String.eqb k key) eqn:E; simpl; by rewrite E.
Qed.

Lemma get_set_ne key key' value m :
  key ≠ key' → get key' (set key value m) = get key' m.
Proof.
  intros Hne. induction m as [|[k v] rest IH]; simpl.
  - destruct (String.eqb key key') eqn:E; [|done].
    by apply String.eqb_eq in E.
  - destruct (String.eqb k key) eqn:E; simpl.
    + apply String.eqb_eq in E as ->.
      destruct (String.eqb key key') eqn:E'; [|done].
      by apply String.eqb_eq in E'.
    + by rewrite IH.
Qed.

Lemma has_keys key m : has key m = true ↔ key ∈ keys m.
Proof.
  unfold has, keys. induction m as [|[k v] rest IH]; simpl.
  - split; [done | by intros ?%elem_of_nil].
  - destruct (String.eqb k key) eqn:E.
    + apply String.eqb_eq in E as ->. split; [intros _; left | done].
    + rewrite elem_of_cons, IH. apply String.eqb_neq in E.
      split; [by right | by intros [->|?]].
Qed.

Lemma has_false_get key m : has key m = false ↔ get key m = None.
Proof. unfold has. destruct (get key m); naive_solver. Qed.

End Facts.
End JsMapFacts.

(** ** Conversation memory *)

Module MemoryFacts.
Import Js Memory.

(** Unfolds a run of the service down to the calls on the provider. *)
Ltac run_service :=
  unfold storeAssistantInteraction, storeUserInteraction,
    getRecentConversationHistory, getOrCreateConversation,
    storeMessage, storeContext, getMessages, getConversation,
    createConversation, request, publishEvent, now, stringify,
    try_catch, throw, reads, modify, mbind, Run_bind, mret, Run_ret;
  simpl.

Section Facts.
Context {Num Item Env : Type}.
Variable Number_toString : Num → string.
Variable item_id : Item → option string.
Variable JSON_stringify : list Item → Result string.
Variable Date_now : Env → Num.

Implicit Types (this : MemoryService (Num := Num) (Env := Env)).
Implicit Types (w : World (Num := Num) (Item := Item) (Env := Env)).
Implicit Types (user platform response : string) (chain : list Item).

(** The conversation is fetched: nothing is created. *)
Lemma getOrCreateConversation_fetched this user platform w c e1 :
  provider_getConversation (provider this)
    (generateConversationId user platform) (env w) = (inr c, e1) →
  ∃ evs,
    getOrCreateConversation this user platform w =
    (inr (generateConversationId user platform),
     mkWorld e1 (events w ++ evs)
       (calls w ++
          [CallGetConversation (generateConversationId user platform)])).
Proof.
  intros Hget. run_service. rewrite Hget. simpl. by eexists [_].
Qed.

(** The fetch fails: one create request follows, whose outcome decides. *)
Lemma getOrCreateConversation_created this user platform w e e1 r e2 :
  provider_getConversation (provider this)
    (generateConversationId user platform) (env w) = (inl e, e1) →
  provider_createConversation (provider this)
    (Some (mkOptions (Some (generateConversationId user platform)))) e1
    = (r, e2) →
  ∃ evs,
    getOrCreateConversation this user platform w =
    (match r with
     | inr _ => inr (generateConversationId user platform)
     | inl error => inl error
     end,
     mkWorld e2 (events w ++ evs)
       (calls w ++
          [CallGetConversation (generateConversationId user platform);
           CallCreateConversation
             (Some (mkOptions
                      (Some (generateConversationId user platform))))])).
Proof.
  intros Hget Hcreate. run_service. rewrite Hget. simpl. rewrite Hcreate.
  destruct r; simpl; rewrite <- !app_assoc; by eexists [_; _].
Qed.

(** The requests of the conversation step never write a message or a
    context. *)
Lemma getOrCreateConversation_calls this user platform w :
  ∃ new,
    calls (getOrCreateConversation this user platform w).2 = calls w ++ new
    ∧ Forall (λ c, is_write c = false) new.
Proof.
  destruct (provider_getConversation (provider this)
              (generateConversationId user platform) (env w))
    as [[e|c] e1] eqn:Hget.
  - destruct (provider_createConversation (provider this)
      (Some (mkOptions (Some (generateConversationId user platform)))) e1)
      as [r e2] eqn:Hcreate.
    destruct (getOrCreateConversation_created _ _ _ _ _ _ _ _ Hget Hcreate)
      as [evs ->].
    eexists. split; [done|]. by repeat constructor.
  - destruct (getOrCreateConversation_fetched _ _ _ _ _ _ Hget) as [evs ->].
    eexists. split; [done|]. by repeat constructor.
Qed.

(** With a chain whose first element gives no usable id, the interaction
    stops after the conversation step: it fails, with the error of that
    step if it failed, else with what [JSON.stringify] throws on the chain
    if it throws, and with [MissingReferenceError] otherwise; the storage
    and the requests are as the conversation step left them. *)
Lemma storeAssistantInteraction_invalid this user platform response chain w :
  truthy (head chain ≫= item_id) = false →
  let r0 := getOrCreateConversation this user platform w in
  let r :=
    storeAssistantInteraction Number_toString item_id JSON_stringify
      Date_now this user platform response chain w in
  r.1 = match r0.1, JSON_stringify chain with
        | inl error, _ => inl error
        | inr _, inl error => inl error
        | inr _, inr _ => inl MissingReferenceError
        end
  ∧ env r.2 = env r0.2 ∧ calls r.2 = calls r0.2.
Proof.
  intros Hinvalid. run_service.
  change (option_bind _ _ item_id (head chain)) with (head chain ≫= item_id).
  destruct (provider_getConversation _ _ _) as [[e|c] e1]; simpl.
  - destruct (provider_createConversation _ _ _) as [[e'|c] e2]; simpl;
      [done|].
    destruct (JSON_stringify chain) as [e'|serialized]; simpl; [done|].
    destruct (head chain ≫= item_id) as [uid|]; simpl; [|done].
    simpl in Hinvalid. by rewrite Hinvalid.
  - destruct (JSON_stringify chain) as [e'|serialized]; simpl; [done|].
    destruct (head chain ≫= item_id) as [uid|]; simpl; [|done].
    simpl in Hinvalid. by rewrite Hinvalid.
Qed.

(** A successful interaction: the chain starts with an element that has a
    non-empty id and is one that [JSON.stringify] serializes, the
    conversation step returned, and exactly two requests followed it, the
    context and then the message, both built from the time read after the
    conversation step. The context request returned on the storage that
    the conversation step left, the message request returned on the
    storage that the context request left, and the storage it left is the
    final one. *)
Lemma storeAssistantInteraction_success
    this user platform response chain w w' :
  storeAssistantInteraction Number_toString item_id JSON_stringify Date_now
    this user platform response chain w = (inr (), w') →
  let conversationId := generateConversationId user platform in
  let r0 := getOrCreateConversation this user platform w in
  let timestamp := Date_now (env r0.2) in
  let contextId :=
    conversationId +:+ "-context-" +:+ Number_toString timestamp in
  let messageId :=
    conversationId +:+ "-assistant-" +:+ Number_toString timestamp in
  ∃ first userMessageId content stored,
    let context := mkContext contextId "context_chain" content timestamp in
    let message :=
      mkMessage messageId "assistant" response timestamp
        (Some contextId) (Some userMessageId) in
    head chain = Some first ∧ item_id first = Some userMessageId
    ∧ userMessageId ≠ ""
    ∧ r0.1 = inr conversationId
    ∧ JSON_stringify chain = inr content
    ∧ provider_storeContext (provider this) context conversationId
        (env r0.2) = (inr (), stored)
    ∧ provider_storeMessage (provider this) message conversationId stored
      = (inr (), env w')
    ∧ calls w' =
      calls r0.2 ++
        [CallStoreContext context conversationId;
         CallStoreMessage message conversationId].
Proof.
  run_service.
  change (option_bind _ _ item_id (head chain)) with (head chain ≫= item_id).
  assert (Hid : ∀ A (k : string → A) (z : A) P,
    (∀ first uid, head chain = Some first → item_id first = Some uid →
       P (k uid)) → P z →
    P (match head chain ≫= item_id with Some uid => k uid | None => z end)).
  { intros A k z P Hsome Hnone. destruct (head chain) as [first|]; simpl;
      [|done].
    destruct (item_id first) as [uid|] eqn:E; [|done]. by eapply Hsome. }
  destruct (provider_getConversation _ _ _) as [[e|c] e1]; simpl.
  - destruct (provider_createConversation _ _ _) as [[e'|c] e2]; simpl;
      [done|].
    destruct (JSON_stringify chain) as [e'|content]; simpl; [done|].
    apply Hid; [|done]. intros first uid Hfirst Huid.
    destruct (String.eqb uid "") eqn:Hempty; simpl; [done|].
    destruct (provider_storeContext _ _ _ _) as [[e'|[]] e3] eqn:Hcontext;
      simpl; [done|].
    destruct (provider_storeMessage _ _ _ _) as [[e'|[]] e4] eqn:Hmessage;
      simpl; [done|].
    intros [= <-]. exists first, uid, content, e3. simpl.
    apply String.eqb_neq in Hempty. by rewrite <- !app_assoc.
  - destruct (JSON_stringify chain) as [e'|content]; simpl; [done|].
    apply Hid; [|done]. intros first uid Hfirst Huid.
    destruct (String.eqb uid "") eqn:Hempty; simpl; [done|].
    destruct (provider_storeContext _ _ _ _) as [[e'|[]] e3] eqn:Hcontext;
      simpl; [done|].
    destruct (provider_storeMessage _ _ _ _) as [[e'|[]] e4] eqn:Hmessage;
      simpl; [done|].
    intros [= <-]. exists first, uid, content, e3. simpl.
    apply String.eqb_neq in Hempty. by rewrite <- !app_assoc.
Qed.


(** C2. After a successful [storeAssistantInteraction], the requests it
    sent to the persistence collaborator end with the context write
    followed by the message write, nothing written before them, and the
    [contextId] of the message written is the id of the context written.
    The context write has completed before the message write starts: it
    returned, on the storage that the conversation step left, and the
    message write acts on the storage that the context write left behind;
    what the message write leaves is the storage at the end of the call. *)
Theorem storeAssistantInteraction_context_before_message
    this user platform response chain w w' :
  storeAssistantInteraction Number_toString item_id JSON_stringify Date_now
    this user platform response chain w = (inr (), w') →
  ∃ earlier context message conversationId stored,
    calls w' =
      calls w ++ earlier ++
        [CallStoreContext context conversationId;
         CallStoreMessage message conversationId]
    ∧ Forall (λ c, is_write c = false) earlier
    ∧ msg_contextId message = Some (ctx_id context)
    ∧ provider_storeContext (provider this) context conversationId
        (env (getOrCreateConversation this user platform w).2)
      = (inr (), stored)
    ∧ provider_storeMessage (provider this) message conversationId stored
      = (inr (), env w').
Proof.
  intros Hrun.
  destruct (storeAssistantInteraction_success _ _ _ _ _ _ _ Hrun)
    as (first & uid & content & stored & _ & _ & _ & _ & _ & Hcontext
        & Hmessage & Hcalls).
  destruct (getOrCreateConversation_calls this user platform w)
    as (earlier & Hearlier & Hwrites).
  rewrite Hearlier, <- app_assoc in Hcalls.
  by eexists earlier, _, _, _, stored.
Qed.

(** C3. A successful [storeAssistantInteraction] on a chain whose first
    element has the id [userMessageId] stores, in the conversation
    [platform-user], the context
    [{id: conversationId-context-timestamp, type: "context_chain",
      content: JSON.stringify(contextChain), timestamp}]
    and then the message
    [{id: conversationId-assistant-timestamp, role: "assistant",
      content: response, timestamp, contextId, user_message_id}]
    with [contextId] the id of that context, [user_message_id] the id of
    the first chain element, and one [timestamp], read from the clock after
    the conversation step, in both ids and rendered as a template literal
    renders a number. The content is the string that [JSON.stringify]
    returned for the whole chain. These two records are what the
    collaborator was handed and acted on: its [storeContext] returned on
    the storage that the conversation step left, its [storeMessage]
    returned on the storage that [storeContext] left, and what
    [storeMessage] left is the storage at the end of the call. *)
Theorem storeAssistantInteraction_records
    this user platform response chain first userMessageId w w' :
  head chain = Some first →
  item_id first = Some userMessageId →
  storeAssistantInteraction Number_toString item_id JSON_stringify Date_now
    this user platform response chain w = (inr (), w') →
  let conversationId := platform +:+ "-" +:+ user in
  let timestamp :=
    Date_now (env (getOrCreateConversation this user platform w).2) in
  ∃ content earlier stored,
    let context :=
      mkContext
        (conversationId +:+ "-context-" +:+ Number_toString timestamp)
        "context_chain" content timestamp in
    let message :=
      mkMessage
        (conversationId +:+ "-assistant-" +:+ Number_toString timestamp)
        "assistant" response timestamp (Some (ctx_id context))
        (Some userMessageId) in
    JSON_stringify chain = inr content
    ∧ calls w' =
        calls w ++ earlier ++
          [CallStoreContext context conversationId;
           CallStoreMessage message conversationId]
    ∧ Forall (λ c, is_write c = false) earlier
    ∧ provider_storeContext (provider this) context conversationId
        (env (getOrCreateConversation this user platform w).2)
      = (inr (), stored)
    ∧ provider_storeMessage (provider this) message conversationId stored
      = (inr (), env w').
Proof.
  intros Hfirst Huid Hrun.
  destruct (storeAssistantInteraction_success _ _ _ _ _ _ _ Hrun)
    as (first' & uid & content & stored & Hfirst' & Huid' & _ & _
        & Hcontent & Hcontext & Hmessage & Hcalls).
  rewrite Hfirst in Hfirst'. injection Hfirst' as <-.
  rewrite Huid in Huid'. injection Huid' as <-.
  destruct (getOrCreateConversation_calls this user platform w)
    as (earlier & Hearlier & Hwrites).
  rewrite Hearlier, <- app_assoc in Hcalls.
  by exists content, earlier, stored.
Qed.

(** C10. [storeAssistantInteraction] runs the conversation step before it
    looks at the chain. With a chain that is empty or whose first element
    has no id, the call fails, and yet the requests of
    [getOrCreateConversation] have reached the persistence collaborator:
    the fetch and, when the fetch failed, a [createConversation] with the
    id of the conversation. Nothing else reached it (no context, no
    message), and the storage is as the conversation step left it. *)
Theorem storeAssistantInteraction_creates_before_validating
    this user platform response chain w :
  truthy (head chain ≫= item_id) = false →
  let conversationId := generateConversationId user platform in
  let r :=
    storeAssistantInteraction Number_toString item_id JSON_stringify
      Date_now this user platform response chain w in
  (∃ error, r.1 = inl error)
  ∧ calls r.2 =
      calls w ++
        CallGetConversation conversationId ::
        match (provider_getConversation (provider this) conversationId
                 (env w)).1 with
        | inl _ =>
            [CallCreateConversation
               (Some (mkOptions (Some conversationId)))]
        | inr _ => []
        end
  ∧ env r.2 = env (getOrCreateConversation this user platform w).2.
Proof.
  intros Hinvalid conversationId r.
  destruct (storeAssistantInteraction_invalid this user platform response
              chain w Hinvalid) as (Hres & Henv & Hcalls).
  fold r in Hres, Henv, Hcalls. rewrite Hres, Hcalls. split_and!; [|..|done].
  - destruct (getOrCreateConversation this user platform w).1; [by eauto|].
    destruct (JSON_stringify chain); by eauto.
  - destruct (provider_getConversation (provider this) conversationId (env w))
      as [[e|c] e1] eqn:Hget; simpl.
    + destruct (provider_createConversation (provider this)
        (Some (mkOptions (Some conversationId))) e1) as [r' e2] eqn:Hcreate.
      by destruct (getOrCreateConversation_created _ _ _ _ _ _ _ _
                     Hget Hcreate) as [evs ->].
    + by destruct (getOrCreateConversation_fetched _ _ _ _ _ _ Hget)
        as [evs ->].
Qed.

(** C9. [getRecentConversationHistory] never throws. It sends one
    [getMessages] request for the conversation [platform-user], with the
    limit given or 100 without one. When the request fails, the error is
    logged (an event of level error that carries its text) and the empty
    sequence is returned; when it succeeds, the messages fetched are
    returned as [{role, content, timestamp}] triples. *)
Theorem getRecentConversationHistory_fail_soft this user platform limit w :
  let options :=
    mkQuery (platform +:+ "-" +:+ user)
      (Some (match limit with Some n => n | None => 100%N end)) in
  let r := getRecentConversationHistory this user platform limit w in
  calls r.2 = calls w ++ [CallGetMessages options]
  ∧ match provider_getMessages (provider this) options (env w) with
    | (inr messages, e) =>
        r.1 = inr (map (λ msg, mkEntry (msg_role msg) (msg_content msg)
                                 (msg_timestamp msg)) messages)
        ∧ env r.2 = e
    | (inl error, e) =>
        r.1 = inr []
        ∧ env r.2 = e
        ∧ ∃ earlier,
            events r.2 =
              events w ++ earlier ++
                [mkEvent "memory.conversation.history.failed"
                   "Failed to get conversation history" LogError
                   (MObj [("error", MStr (error_text error));
                          ("user", MStr user);
                          ("platform", MStr platform)])]
    end.
Proof.
  run_service. unfold generateConversationId.
  destruct limit as [n|]; simpl;
    destruct (provider_getMessages _ _ _) as [[error|messages] e]; simpl;
    split_and!; try done; eexists [_]; by rewrite <- app_assoc.
Qed.

(** *** Get-or-insert against a collaborator that keeps what it creates *)

Section Contract.
Variable p : MemoryProvider (Num := Num) Env.

(** [present id e]: the storage [e] holds the conversation [id]. *)
Variable present : string → Env → Prop.

(** Creating a conversation with a given id succeeds and leaves it
    present; a conversation that is present is fetched, and stays; a
    conversation that was fetched is present. *)
Hypothesis create_present : ∀ conversationId e,
  ∃ r e',
    provider_createConversation p
      (Some (mkOptions (Some conversationId))) e = (inr r, e')
    ∧ present conversationId e'.
Hypothesis present_fetch : ∀ conversationId e,
  present conversationId e →
  ∃ c e',
    provider_getConversation p conversationId e = (inr c, e')
    ∧ present conversationId e'.
Hypothesis fetch_present : ∀ conversationId e c e',
  provider_getConversation p conversationId e = (inr c, e') →
  present conversationId e'.

Lemma getOrCreateConversation_first user platform w :
  let conversationId := generateConversationId user platform in
  let r := getOrCreateConversation (mkService p) user platform w in
  r.1 = inr conversationId
  ∧ present conversationId (env r.2)
  ∧ calls r.2 =
      calls w ++
        CallGetConversation conversationId ::
        match (provider_getConversation p conversationId (env w)).1 with
        | inl _ =>
            [CallCreateConversation
               (Some (mkOptions (Some conversationId)))]
        | inr _ => []
        end.
Proof.
  intros conversationId r. subst r.
  destruct (provider_getConversation p conversationId (env w))
    as [[e|c] e1] eqn:Hget; simpl.
  - destruct (create_present conversationId e1) as (r' & e2 & Hcreate & Hp).
    by destruct (getOrCreateConversation_created (mkService p) _ _ _ _ _ _ _
                   Hget Hcreate) as [evs ->].
  - destruct (getOrCreateConversation_fetched (mkService p) _ _ _ _ _ Hget)
      as [evs ->].
    split_and!; [done| |done]. by eapply fetch_present.
Qed.

Lemma invocations_present n user platform w :
  let conversationId := generateConversationId user platform in
  let r := invocations n (mkService p) user platform w in
  present conversationId (env w) →
  Forall (λ outcome, outcome = inr conversationId) r.1
  ∧ ∃ new, calls r.2 = calls w ++ new ∧ List.filter is_create new = [].
Proof.
  intros conversationId. simpl. revert w.
  induction n as [|n IH]; intros w Hpresent; simpl.
  - split; [constructor|]. exists []. by rewrite app_nil_r.
  - destruct (present_fetch _ _ Hpresent) as (c & e1 & Hget & Hp).
    destruct (getOrCreateConversation_fetched (mkService p) _ _ _ _ _ Hget)
      as [evs ->].
    specialize (IH (mkWorld e1 (events w ++ evs)
                      (calls w ++ [CallGetConversation conversationId])) Hp).
    destruct (invocations n _ _ _ _) as [rs w2].
    destruct IH as (Hrs & new & Hcalls & Hnone). simpl in *.
    split; [by constructor|].
    exists (CallGetConversation conversationId :: new).
    by rewrite Hcalls, <- app_assoc.
Qed.

(** Get-or-insert. [getOrCreateConversation] derives the id
    [platform-user], fetches that conversation and, when the fetch fails,
    sends one create request with that id; when the fetch succeeds it
    sends none. Against a persistence collaborator whose create succeeds,
    and on which a conversation created or fetched is fetched from then
    on, without any failure of another kind, every invocation returns
    that same id, and over any number of invocations made one after the
    other at most one create request reaches the collaborator. *)
Lemma getOrCreateConversation_get_or_insert user platform :
  let conversationId := platform +:+ "-" +:+ user in
  (∀ w,
     let r := getOrCreateConversation (mkService p) user platform w in
     r.1 = inr conversationId
     ∧ calls r.2 =
         calls w ++
           CallGetConversation conversationId ::
           match (provider_getConversation p conversationId (env w)).1 with
           | inl _ =>
               [CallCreateConversation
                  (Some (mkOptions (Some conversationId)))]
           | inr _ => []
           end)
  ∧ (∀ n w,
       let r := invocations n (mkService p) user platform w in
       Forall (λ outcome, outcome = inr conversationId) r.1
       ∧ ∃ new,
           calls r.2 = calls w ++ new
           ∧ length (List.filter is_create new) ≤ 1).
Proof.
  intros conversationId. split.
  - intros w. by destruct (getOrCreateConversation_first user platform w)
      as (? & _ & ?).
  - intros [|n] w; simpl.
    { split; [constructor|]. exists []. rewrite app_nil_r. split; [done|].
      simpl. lia. }
    destruct (getOrCreateConversation_first user platform w)
      as (Hres & Hpresent & Hcalls).
    destruct (getOrCreateConversation (mkService p) user platform w)
      as [r1 w1]. simpl in *.
    destruct (invocations_present n user platform w1 Hpresent)
      as (Hrs & new & Hnew & Hnone).
    destruct (invocations n _ _ _ _) as [rs w2]. simpl in *.
    split; [by constructor|].
    eexists. rewrite Hnew, Hcalls, <- app_assoc. split; [done|].
    destruct (provider_getConversation p _ _).1; simpl;
      rewrite Hnone; simpl; lia.
Qed.

End Contract.

End Facts.

(** *** The service on a store kept in memory, and on an unreachable one *)

Import Providers.

Lemma in_memory_create conversationId s :
  ∃ r s',
    provider_createConversation in_memory
      (Some (mkOptions (Some conversationId))) s = (inr r, s')
    ∧ is_Some (lookup_conversation conversationId s').
Proof.
  eexists _, _. split; [done|]. unfold lookup_conversation. simpl.
  rewrite JsMapFacts.get_set_eq. by eexists.
Qed.

Lemma in_memory_fetch conversationId s :
  is_Some (lookup_conversation conversationId s) →
  ∃ c s',
    provider_getConversation in_memory conversationId s = (inr c, s')
    ∧ is_Some (lookup_conversation conversationId s').
Proof. intros [c Hc]. exists c, s. simpl. rewrite Hc. by eauto. Qed.

Lemma in_memory_fetched conversationId s c s' :
  provider_getConversation in_memory conversationId s = (inr c, s') →
  is_Some (lookup_conversation conversationId s').
Proof.
  simpl. destruct (lookup_conversation conversationId s) eqn:E;
    intros [= <- <-]. by eexists.
Qed.



(** The end-to-end scenario on a store without conversations, at time
    2000: the requests that reach the store, and the two messages read back
    in the order they were written. *)
Example scenario_run :
  (scenario (start empty_store)).1
  = inr [mkMessage "web-1000" "user" "hi" at_1000 None None;
         mkMessage "web-alice-assistant-2000" "assistant" "hello" at_2000
           (Some "web-alice-context-2000") (Some "web-1000")]
  ∧ calls (scenario (start empty_store)).2
    = [CallGetConversation "web-alice";
       CallCreateConversation (Some (mkOptions (Some "web-alice")));
       CallStoreMessage
         (mkMessage "web-1000" "user" "hi" at_1000 None None)
         "web-alice";
       CallGetConversation "web-alice";
       CallStoreContext
         (mkContext "web-alice-context-2000" "context_chain"
            user_message_json at_2000)
         "web-alice";
       CallStoreMessage
         (mkMessage "web-alice-assistant-2000" "assistant" "hello" at_2000
            (Some "web-alice-context-2000") (Some "web-1000"))
         "web-alice";
       CallGetMessages (mkQuery "web-alice" None)].
Proof. split; vm_compute; reflexivity. Qed.

(** On the store kept in memory, the context is in the conversation when
    the message is written, and both are there at the end:
    [getContexts] then returns the context that the message refers to. *)
Lemma storeAssistantInteraction_context_before_message_witness :
  let r0 :=
    getOrCreateConversation (service in_memory) "alice" "web"
      (start empty_store) in
  let r :=
    storeAssistantInteraction Millis_toString item_id items_json clock
      (service in_memory) "alice" "web" "hello" [user_message]
      (start empty_store) in
  let context :=
    mkContext "web-alice-context-2000" "context_chain" user_message_json
      at_2000 in
  let message :=
    mkMessage "web-alice-assistant-2000" "assistant" "hello" at_2000
      (Some "web-alice-context-2000") (Some "web-1000") in
  r = (inr (), r.2)
  ∧ (∃ earlier context message conversationId stored,
       calls r.2 =
         calls (start empty_store) ++ earlier ++
           [CallStoreContext context conversationId;
            CallStoreMessage message conversationId]
       ∧ Forall (λ c, is_write c = false) earlier
       ∧ msg_contextId message = Some (ctx_id context)
       ∧ provider_storeContext (provider (service in_memory)) context
           conversationId (env r0.2) = (inr (), stored)
       ∧ provider_storeMessage (provider (service in_memory)) message
           conversationId stored = (inr (), env r.2))
  ∧ provider_storeContext in_memory context "web-alice" (env r0.2)
    = (inr (),
       mkStore [("web-alice", mkConversation "web-alice" [] [context])]
         at_2000)
  ∧ env r.2 =
      mkStore [("web-alice", mkConversation "web-alice" [message] [context])]
        at_2000
  ∧ provider_getContexts in_memory "web-alice" (env r.2)
    = (inr [context], env r.2).
Proof.
  split; [vm_compute; reflexivity|].
  split; [|split_and!; vm_compute; reflexivity].
  apply (storeAssistantInteraction_context_before_message Millis_toString
           item_id items_json clock (service in_memory) "alice" "web"
           "hello" [user_message] (start empty_store)).
  vm_compute; reflexivity.
Defined.

(** The scenario of the specification: the answer ["hello"] to the user
    message [{ id: "web-1000" }] of alice on the web, at time 2000, on a
    store without conversations. *)
Lemma storeAssistantInteraction_records_witness :
  let r0 :=
    getOrCreateConversation (service in_memory) "alice" "web"
      (start empty_store) in
  let r :=
    storeAssistantInteraction Millis_toString item_id items_json clock
      (service in_memory) "alice" "web" "hello" [user_message]
      (start empty_store) in
  let context :=
    mkContext "web-alice-context-2000" "context_chain" user_message_json
      at_2000 in
  let message :=
    mkMessage "web-alice-assistant-2000" "assistant" "hello" at_2000
      (Some "web-alice-context-2000") (Some "web-1000") in
  head [user_message] = Some user_message
  ∧ item_id user_message = Some "web-1000"
  ∧ r = (inr (), r.2)
  ∧ (∃ content earlier stored,
       let context :=
         mkContext
           ("web" +:+ "-" +:+ "alice" +:+ "-context-"
              +:+ Millis_toString (clock (env r0.2)))
           "context_chain" content (clock (env r0.2)) in
       let message :=
         mkMessage
           ("web" +:+ "-" +:+ "alice" +:+ "-assistant-"
              +:+ Millis_toString (clock (env r0.2)))
           "assistant" "hello" (clock (env r0.2)) (Some (ctx_id context))
           (Some "web-1000") in
       items_json [user_message] = inr content
       ∧ calls r.2 =
           calls (start empty_store) ++ earlier ++
             [CallStoreContext context ("web" +:+ "-" +:+ "alice");
              CallStoreMessage message ("web" +:+ "-" +:+ "alice")]
       ∧ Forall (λ c, is_write c = false) earlier
       ∧ provider_storeContext (provider (service in_memory)) context
           ("web" +:+ "-" +:+ "alice") (env r0.2) = (inr (), stored)
       ∧ provider_storeMessage (provider (service in_memory)) message
           ("web" +:+ "-" +:+ "alice") stored = (inr (), env r.2))
  ∧ items_json [user_message] = inr user_message_json
  ∧ calls r.2 =
      [CallGetConversation "web-alice";
       CallCreateConversation (Some (mkOptions (Some "web-alice")));
       CallStoreContext context "web-alice";
       CallStoreMessage message "web-alice"]
  ∧ env r.2 =
      mkStore [("web-alice", mkConversation "web-alice" [message] [context])]
        at_2000.
Proof.
  split; [reflexivity|]. split; [reflexivity|].
  split; [vm_compute; reflexivity|].
  split; [|split_and!; vm_compute; reflexivity].
  apply (storeAssistantInteraction_records Millis_toString item_id
           items_json clock (service in_memory) "alice" "web" "hello"
           [user_message] user_message "web-1000" (start empty_store)).
  - reflexivity.
  - reflexivity.
  - vm_compute; reflexivity.
Defined.

Lemma storeAssistantInteraction_creates_before_validating_witness :
  truthy (head [anonymous] ≫= item_id) = false
  ∧ (∃ error,
       (storeAssistantInteraction Millis_toString item_id items_json clock
          (service in_memory) "alice" "web" "hello" [anonymous]
          (start empty_store)).1 = inl error)
  ∧ calls (storeAssistantInteraction Millis_toString item_id items_json
             clock (service in_memory) "alice" "web" "hello" [anonymous]
             (start empty_store)).2 =
      [CallGetConversation "web-alice";
       CallCreateConversation (Some (mkOptions (Some "web-alice")))]
  ∧ env (storeAssistantInteraction Millis_toString item_id items_json clock
           (service in_memory) "alice" "web" "hello" [anonymous]
           (start empty_store)).2 =
      mkStore [("web-alice", mkConversation "web-alice" [] [])] at_2000.
Proof.
  split; [reflexivity|].
  apply (storeAssistantInteraction_creates_before_validating Millis_toString
           item_id items_json clock (service in_memory) "alice" "web"
           "hello" [anonymous] (start empty_store)).
  reflexivity.
Defined.

(** The store kept in memory keeps what it creates: any number of
    invocations return the id and send at most one create request. *)
Lemma getOrCreateConversation_in_memory :
  (∀ w : World (Num := Millis) (Item := Item),
     (getOrCreateConversation (service in_memory) "alice" "web" w).1
     = inr "web-alice")
  ∧ (∀ n (w : World (Num := Millis) (Item := Item)),
       Forall (λ outcome, outcome = inr "web-alice")
         (invocations n (service in_memory) "alice" "web" w).1
       ∧ ∃ new,
           calls (invocations n (service in_memory) "alice" "web" w).2
           = calls w ++ new
           ∧ length (List.filter is_create new) ≤ 1).
Proof.
  destruct (getOrCreateConversation_get_or_insert (Item := Item)
              in_memory
              (λ conversationId s,
                 is_Some (lookup_conversation conversationId s))
              in_memory_create in_memory_fetch in_memory_fetched
              "alice" "web") as [Hone Hmany].
  split; [|exact Hmany]. intros w. by destruct (Hone w).
Qed.

(** Against the unreachable collaborator no invocation returns the id, and
    each of two invocations sends a create request. *)
Example getOrCreateConversation_unreachable :
  (invocations 2 (service unreachable) "alice" "web" (start at_2000)).1
  = [inl (JsError "storage unavailable");
     inl (JsError "storage unavailable")]
  ∧ calls (invocations 2 (service unreachable) "alice" "web"
             (start at_2000)).2
    = [CallGetConversation "web-alice";
       CallCreateConversation (Some (mkOptions (Some "web-alice")));
       CallGetConversation "web-alice";
       CallCreateConversation (Some (mkOptions (Some "web-alice")))].
Proof. split_and!; vm_compute; reflexivity. Qed.

Import Flaky.

(** C4. The code does not tell a fetch that found nothing from a fetch
    that failed for another reason: after any failure it sends a create
    request. On a connection whose second fetch times out, to a store
    without conversations that keeps what it creates, three invocations of
    [getOrCreateConversation("alice", "web")] made one after the other all
    return ["web-alice"], and two create requests reach the collaborator:
    the first invocation creates the conversation, and the second, whose
    fetch timed out, sends a create for the conversation that the store
    then holds. *)
Theorem getOrCreateConversation_second_create :
  let first :=
    invocations 1 (service flaky) "alice" "web"
      (start second_fetch_times_out) in
  let r :=
    invocations 3 (service flaky) "alice" "web"
      (start second_fetch_times_out) in
  r.1 = [inr "web-alice"; inr "web-alice"; inr "web-alice"]
  ∧ calls r.2 =
      [CallGetConversation "web-alice";
       CallCreateConversation (Some (mkOptions (Some "web-alice")));
       CallGetConversation "web-alice";
       CallCreateConversation (Some (mkOptions (Some "web-alice")));
       CallGetConversation "web-alice"]
  ∧ length (List.filter is_create (calls r.2)) = 2
  ∧ lookup_conversation "web-alice" (kept (env first.2))
    = Some (mkConversation "web-alice" [] [])
  ∧ provider_getConversation flaky "web-alice" (env first.2)
    = (inl timeout, mkConnection (kept (env first.2)) [false]).
Proof. split_and!; vm_compute; reflexivity. Qed.

End MemoryFacts.

(** ** Model providers *)

Module ModelFacts.
Import Js Model.

Lemma append_assoc (a b c : string) : (a +:+ b) +:+ c = a +:+ b +:+ c.
Proof.
  induction a as [|x a IH]; [reflexivity|].
  change (String x ((a +:+ b) +:+ c) = String x (a +:+ b +:+ c)).
  by rewrite IH.
Qed.

Lemma append_empty_r (a : string) : a +:+ "" = a.
Proof.
  induction a as [|x a IH]; [reflexivity|].
  change (String x (a +:+ "") = String x a). by rewrite IH.
Qed.

Section Facts.
Context {Val Schema Num W : Type}.
Variable toISOString : W → string.

Abbreviation Capability :=
  (ModelCapability (Val := Val) (Schema := Schema) (Num := Num) (W := W)).
Abbreviation Provider := (ModelProvider (Val := Val) (Num := Num) (W := W)).
Implicit Types (this model : Provider) (capability : Capability).
Implicit Types (h : list (JsMap.t Capability)).

(** C5. [executeCapability] looks the capability id up in the table of the
    provider. When the id is absent it throws the error
    [Capability <capability id> not found on model <provider id>], whose
    message includes both ids, and does nothing else; when the id is
    present it is the execution function of that capability, applied to the
    input and the configuration given: same result, same effects. *)
Theorem executeCapability_dispatch this capabilityId input config h e :
  match getCapability this capabilityId h with
  | None =>
      hasCapability this capabilityId h = false
      ∧ executeCapability this capabilityId input config h e
        = (inl (JsError ("Capability " +:+ capabilityId +:+
                           " not found on model " +:+ id this)), e)
      ∧ includes capabilityId
          (error_text (NotFoundError capabilityId (id this)))
      ∧ includes (id this)
          (error_text (NotFoundError capabilityId (id this)))
  | Some capability =>
      hasCapability this capabilityId h = true
      ∧ executeCapability this capabilityId input config h e
        = execute capability input config e
  end.
Proof.
  unfold getCapability, hasCapability, JsMap.has, executeCapability.
  destruct (JsMap.get capabilityId (table this h)) as [capability|];
    [done|].
  split_and!; [done|done|..].
  - by exists "Capability ", (" not found on model " +:+ id this).
  - exists ("Capability " +:+ capabilityId +:+ " not found on model "), "".
    simpl. by rewrite !append_assoc, append_empty_r.
Qed.

(** *** The table of the decorator *)

Lemma table_alloc model h (m : JsMap.t Capability) :
  capabilities model < length h → table model (h ++ [m]) = table model h.
Proof. intros Hlt. unfold table. by rewrite lookup_app_l. Qed.

Lemma table_alloc_empty model h :
  table model (h ++ [JsMap.empty]) = table model h.
Proof.
  unfold table. destruct (decide (capabilities model < length h)) as [Hlt|Hge].
  - by rewrite lookup_app_l.
  - rewrite (lookup_ge_None_2 h) by lia.
    destruct (decide (capabilities model = length h)) as [->|Hne].
    + by rewrite list_lookup_middle.
    + rewrite lookup_ge_None_2; [done|]. rewrite length_app. simpl. lia.
Qed.

Lemma table_addCapability this capability h :
  capabilities this < length h →
  table this (addCapability this capability h)
  = JsMap.set (cap_id capability) capability (table this h).
Proof.
  intros Hlt. unfold table, addCapability.
  rewrite list_lookup_alter_eq.
  destruct (lookup_lt_is_Some_2 h _ Hlt) as [m ->]. done.
Qed.

Lemma table_addCapability_other this model capability h :
  capabilities this ≠ capabilities model →
  table this (addCapability model capability h) = table this h.
Proof.
  intros Hne. unfold table, addCapability.
  by rewrite list_lookup_alter_ne.
Qed.

Lemma length_addCapability model capability h :
  length (addCapability model capability h) = length h.
Proof. unfold addCapability. apply length_alter. Qed.

Lemma decorate_all this_id (caps : list Capability) h0 m :
  fold_left
    (λ h capability,
       alter (JsMap.set (cap_id capability)
                (decoratedCapability toISOString this_id capability))
         (length h0) h)
    caps (h0 ++ [m])
  = h0 ++
      [fold_left
         (λ m capability,
            JsMap.set (cap_id capability)
              (decoratedCapability toISOString this_id capability) m)
         caps m].
Proof.
  revert m. induction caps as [|c caps IH]; intros m; simpl; [done|].
  rewrite alter_app_r_alt by lia. rewrite Nat.sub_diag. simpl. apply IH.
Qed.

(** What the constructor returns: a provider with the identity of [model]
    and a table of its own, allocated by the constructor and filled from
    the capabilities [model] has at that time. *)
Lemma LoggingModelDecorator_run model h :
  LoggingModelDecorator toISOString model h
  = (mkModel (id model) (name model) (description model) (length h)
       (checkHealth model)
       (Some (match init model with
              | Some model_init => model_init
              | None => mret ()
              end)),
     h ++ [decorated_table toISOString (id model) (getCapabilities model h)]).
Proof.
  unfold LoggingModelDecorator, ModelProviderBase, decorated_table.
  f_equal. unfold getCapabilities at 1. rewrite table_alloc_empty.
  unfold addCapability. simpl. apply decorate_all.
Qed.

Lemma fold_get_other this_id (caps : list Capability) key
    (m : JsMap.t Capability) :
  (∀ c, c ∈ caps → cap_id c ≠ key) →
  JsMap.get key
    (fold_left
       (λ m capability,
          JsMap.set (cap_id capability)
            (decoratedCapability toISOString this_id capability) m)
       caps m)
  = JsMap.get key m.
Proof.
  revert m. induction caps as [|c caps IH]; intros m Hnew; simpl; [done|].
  rewrite IH by (intros; apply Hnew; by right).
  apply JsMapFacts.get_set_ne, Hnew. by left.
Qed.

Lemma fold_get_decorated this_id (caps : list Capability) key
    (m : JsMap.t Capability) decorated :
  JsMap.get key
    (fold_left
       (λ m capability,
          JsMap.set (cap_id capability)
            (decoratedCapability toISOString this_id capability) m)
       caps m)
  = Some decorated →
  JsMap.get key m = Some decorated
  ∨ ∃ c, c ∈ caps ∧ cap_id c = key
         ∧ decorated = decoratedCapability toISOString this_id c.
Proof.
  revert m. induction caps as [|c caps IH]; intros m; simpl; [by left|].
  intros [Hm|(c' & Hin & Hid & ->)]%IH.
  - destruct (decide (cap_id c = key)) as [<-|Hne].
    + rewrite JsMapFacts.get_set_eq in Hm. injection Hm as <-.
      right. exists c. split_and!; [by left|done..].
    + rewrite JsMapFacts.get_set_ne in Hm by done. by left.
  - right. exists c'. split_and!; [by right|done..].
Qed.

(** The decorated execution: the prompt event, then the execution of the
    capability, then the response event or the error event, the outcome
    being that of the capability. *)
Lemma decorated_execute_run this_id capability input config e :
  decorated_execute toISOString this_id capability input config e
  = match
      execute capability input config
        (mkEnv (world e)
           (sink e ++ [prompt_event this_id capability input config]))
    with
    | (inr response, e') =>
        (inr response,
         mkEnv (world e')
           (sink e' ++
              [response_event this_id capability response
                 (toISOString (world e')) config]))
    | (inl error, e') =>
        (inl error,
         mkEnv (world e')
           (sink e' ++ [error_event this_id capability error input]))
    end.
Proof.
  unfold decorated_execute, try_catch, publishEvent, throw, reads, modify,
    mbind, Run_bind, mret, Run_ret. simpl.
  by destruct (execute capability input config _) as [[error|response] e'].
Qed.

(** C6, as amended. Every capability found in a provider built by
    [LoggingModelDecorator] decorates a capability that the underlying
    provider had when it was wrapped. Executing it through the wrapper
    publishes one begin event ([model.capability.prompt]), runs the
    underlying execution, then publishes one terminal event: the response
    event when the underlying execution returned, the error event when it
    threw, never both. The response is returned as it is, and the error
    thrown is the very value the underlying execution threw. The events of
    the call are the begin event, the events that the underlying execution
    published, and the terminal event, in this order: the wrapper adds
    exactly one begin event and exactly one terminal event to those of the
    underlying execution, and the call yields exactly one of each when the
    underlying execution publishes none of these kinds. *)
Theorem decorator_events model h capabilityId decorated input config e :
  let wrapped := LoggingModelDecorator toISOString model h in
  getCapability wrapped.1 capabilityId wrapped.2 = Some decorated →
  ∃ capability,
    capability ∈ getCapabilities model h
    ∧ cap_id capability = capabilityId
    ∧ executeCapability wrapped.1 capabilityId input config wrapped.2 e
      = match
          execute capability input config
            (mkEnv (world e)
               (sink e ++
                  [prompt_event (id model) capability input config]))
        with
        | (inr response, e') =>
            (inr response,
             mkEnv (world e')
               (sink e' ++
                  [response_event (id model) capability response
                     (toISOString (world e')) config]))
        | (inl error, e') =>
            (inl error,
             mkEnv (world e')
               (sink e' ++
                  [error_event (id model) capability error input]))
        end
    ∧ let begin := prompt_event (id model) capability input config in
      let underlying :=
        execute capability input config
          (mkEnv (world e) (sink e ++ [begin])) in
      let terminal :=
        match underlying.1 with
        | inr response =>
            response_event (id model) capability response
              (toISOString (world underlying.2)) config
        | inl error => error_event (id model) capability error input
        end in
      let r :=
        executeCapability wrapped.1 capabilityId input config wrapped.2 e in
      r.1 = underlying.1
      ∧ type terminal =
          match underlying.1 with
          | inr _ => "model.capability.response"
          | inl _ => "model.capability.error"
          end
      ∧ ∀ inner,
          sink underlying.2 = sink e ++ [begin] ++ inner →
          sink r.2 = sink e ++ [begin] ++ inner ++ [terminal]
          ∧ count is_begin ([begin] ++ inner ++ [terminal])
            = 1 + count is_begin inner
          ∧ count is_terminal ([begin] ++ inner ++ [terminal])
            = 1 + count is_terminal inner
          ∧ (count is_begin inner = 0 → count is_terminal inner = 0 →
             count is_begin ([begin] ++ inner ++ [terminal]) = 1
             ∧ count is_terminal ([begin] ++ inner ++ [terminal]) = 1).
Proof.
  intros wrapped. subst wrapped. rewrite LoggingModelDecorator_run. simpl.
  unfold getCapability, executeCapability, table. simpl.
  rewrite list_lookup_middle by done. simpl.
  intros Hget. rewrite Hget.
  destruct (fold_get_decorated (id model) (getCapabilities model h)
              capabilityId JsMap.empty decorated Hget)
    as [Hempty|(c & Hin & Hid & ->)]; [done|].
  exists c. split; [done|]. split; [done|]. simpl.
  rewrite decorated_execute_run. split; [done|].
  destruct (execute c input config _) as [[error|response] e']; simpl.
  all: split; [done|]; split; [done|]; intros inner ->.
  all: split; [by rewrite <- !app_assoc|].
  all: unfold count; simpl; rewrite !List.filter_app, !length_app; simpl.
  all: lia.
Qed.

(** *** Capabilities added to a provider *)

Lemma table_additions_other this model (added : list Capability) h :
  capabilities this ≠ capabilities model →
  table this
    (fold_left (λ h capability, addCapability model capability h) added h)
  = table this h.
Proof.
  intros Hne. revert h. induction added as [|c cs IH]; intros h; simpl;
    [done|].
  by rewrite IH, table_addCapability_other.
Qed.

Lemma has_additions_keep model key (added : list Capability) h :
  capabilities model < length h →
  JsMap.has key (table model h) = true →
  JsMap.has key
    (table model
       (fold_left (λ h capability, addCapability model capability h)
          added h)) = true.
Proof.
  revert h. induction added as [|c cs IH]; intros h Hlt Hhas; simpl;
    [done|].
  apply IH; [by rewrite length_addCapability|].
  rewrite table_addCapability by done. unfold JsMap.has in *.
  destruct (decide (cap_id c = key)) as [<-|Hother].
  - by rewrite JsMapFacts.get_set_eq.
  - by rewrite JsMapFacts.get_set_ne.
Qed.

Lemma has_additions model capability (added : list Capability) h :
  capabilities model < length h →
  capability ∈ added →
  JsMap.has (cap_id capability)
    (table model
       (fold_left (λ h capability, addCapability model capability h)
          added h)) = true.
Proof.
  revert h. induction added as [|c cs IH]; intros h Hlt Hin.
  - by apply elem_of_nil in Hin.
  - simpl. apply elem_of_cons in Hin as [->|Hin].
    + apply has_additions_keep; [by rewrite length_addCapability|].
      rewrite table_addCapability by done. unfold JsMap.has.
      by rewrite JsMapFacts.get_set_eq.
    + apply IH; [by rewrite length_addCapability|done].
Qed.

(** C7. The provider built by [LoggingModelDecorator] has the id, the name
    and the description of the underlying provider, and a table of its own
    that is filled once, from the capabilities the underlying provider has
    when it is wrapped. Capabilities added to the underlying provider
    afterwards leave that table as it is; one whose id no capability had at
    wrap time is then held by the underlying provider and is neither
    visible nor executable through the wrapper. *)
Theorem decorator_snapshot model h (added : list Capability) :
  capabilities model < length h →
  let wrapped := LoggingModelDecorator toISOString model h in
  let this := wrapped.1 in
  let later :=
    fold_left (λ h capability, addCapability model capability h)
      added wrapped.2 in
  id this = id model ∧ name this = name model
  ∧ description this = description model
  ∧ capabilities this ≠ capabilities model
  ∧ table this wrapped.2
    = decorated_table toISOString (id model) (getCapabilities model h)
  ∧ table this later = table this wrapped.2
  ∧ ∀ capability,
      capability ∈ added →
      (∀ c, c ∈ getCapabilities model h → cap_id c ≠ cap_id capability) →
      hasCapability model (cap_id capability) later = true
      ∧ hasCapability this (cap_id capability) later = false
      ∧ getCapability this (cap_id capability) later = None
      ∧ ∀ input config e,
          executeCapability this (cap_id capability) input config later e
          = (inl (NotFoundError (cap_id capability) (id model)), e).
Proof.
  intros Hlt wrapped this later. subst later this wrapped.
  rewrite LoggingModelDecorator_run. simpl.
  set (this := mkModel _ _ _ _ _ _).
  set (snapshot := decorated_table _ _ _).
  assert (Hne : capabilities this ≠ capabilities model) by (simpl; lia).
  assert (Hwrapped : table this (h ++ [snapshot]) = snapshot).
  { unfold table. simpl. by rewrite list_lookup_middle. }
  repeat (split; [done|]).
  split; [by rewrite table_additions_other|].
  intros capability Hin Hnew.
  assert (Hnone : JsMap.get (cap_id capability) snapshot = None).
  { unfold snapshot, decorated_table. by rewrite fold_get_other. }
  unfold hasCapability, getCapability, executeCapability, JsMap.has.
  rewrite !(table_additions_other this model) by done.
  rewrite Hwrapped, Hnone.
  split; [|done].
  apply has_additions; [|done]. rewrite length_app. simpl. lia.
Qed.

End Facts.

(** *** The decorator on a provider with two capabilities *)

Import Samples.

Lemma decorator_events_witness :
  let begin := prompt_event "openai" text_generation "hi" None in
  let terminal :=
    response_event "openai" text_generation "echo hi" "T+8" None in
  getCapability logged.1 "text-generation" logged.2
  = Some (decoratedCapability toISOString "openai" text_generation)
  ∧ (∃ capability,
       capability ∈ getCapabilities openai.1 openai.2
       ∧ cap_id capability = "text-generation"
       ∧ executeCapability logged.1 "text-generation" "hi" None logged.2
           quiet
         = match
             execute capability "hi" None
               (mkEnv (world quiet)
                  (sink quiet ++
                     [prompt_event (id openai.1) capability "hi" None]))
           with
           | (inr response, e') =>
               (inr response,
                mkEnv (world e')
                  (sink e' ++
                     [response_event (id openai.1) capability response
                        (toISOString (world e')) None]))
           | (inl error, e') =>
               (inl error,
                mkEnv (world e')
                  (sink e' ++
                     [error_event (id openai.1) capability error "hi"]))
           end)
  ∧ sink (execute text_generation "hi" None
            (mkEnv (world quiet) (sink quiet ++ [begin]))).2
    = sink quiet ++ [begin] ++ []
  ∧ executeCapability logged.1 "text-generation" "hi" None logged.2 quiet
    = (inr "echo hi", mkEnv 8%N [begin; terminal])
  ∧ count is_begin [begin; terminal] = 1
  ∧ count is_terminal [begin; terminal] = 1.
Proof.
  split; [reflexivity|].
  split; [|split_and!; reflexivity].
  destruct (decorator_events toISOString openai.1 openai.2 "text-generation"
              (decoratedCapability toISOString "openai" text_generation)
              "hi" None quiet eq_refl)
    as (capability & Hin & Hid & Hrun & _).
  exists capability. split_and!; [exact Hin | exact Hid | exact Hrun].
Defined.

(** A wrapper of a wrapper: the provider [logged] is wrapped once more.
    One execution of its text generation through the outer wrapper yields
    two begin events and two terminal events, a pair for each layer. *)
Lemma decorator_events_counterexample :
  let twice := LoggingModelDecorator toISOString logged.1 logged.2 in
  let r :=
    executeCapability twice.1 "text-generation" "hi" None twice.2 quiet in
  r.1 = inr "echo hi"
  ∧ sink quiet = []
  ∧ map type (sink r.2)
    = ["model.capability.prompt"; "model.capability.prompt";
       "model.capability.response"; "model.capability.response"]
  ∧ count is_begin (sink r.2) = 2
  ∧ count is_terminal (sink r.2) = 2.
Proof. split_and!; vm_compute; reflexivity. Qed.

(** The two executions through the wrapper, spelled out: the events
    published and the outcome. *)
Lemma logged_text_generation :
  executeCapability logged.1 "text-generation" "hi" None logged.2 quiet
  = (inr "echo hi",
     mkEnv 8%N
       [prompt_event "openai" text_generation "hi" None;
        response_event "openai" text_generation "echo hi" "T+8" None]).
Proof. reflexivity. Qed.

Lemma logged_image_generation :
  executeCapability logged.1 "image-generation" "hi" None logged.2 quiet
  = (inl (JsError "rate limited"),
     mkEnv 7%N
       [prompt_event "openai" image_generation "hi" None;
        error_event "openai" image_generation (JsError "rate limited")
          "hi"]).
Proof. reflexivity. Qed.

Lemma decorator_snapshot_witness :
  capabilities openai.1 < length openai.2
  ∧ id logged.1 = id openai.1 ∧ name logged.1 = name openai.1
  ∧ description logged.1 = description openai.1
  ∧ capabilities logged.1 ≠ capabilities openai.1
  ∧ table logged.1 logged.2
    = decorated_table toISOString (id openai.1)
        (getCapabilities openai.1 openai.2)
  ∧ table logged.1
      (fold_left (λ h capability, addCapability openai.1 capability h)
         [audio_generation] logged.2)
    = table logged.1 logged.2
  ∧ ∀ capability,
      capability ∈ [audio_generation] →
      (∀ c, c ∈ getCapabilities openai.1 openai.2 →
            cap_id c ≠ cap_id capability) →
      hasCapability openai.1 (cap_id capability)
        (fold_left (λ h capability, addCapability openai.1 capability h)
           [audio_generation] logged.2) = true
      ∧ hasCapability logged.1 (cap_id capability)
          (fold_left (λ h capability, addCapability openai.1 capability h)
             [audio_generation] logged.2) = false
      ∧ getCapability logged.1 (cap_id capability)
          (fold_left (λ h capability, addCapability openai.1 capability h)
             [audio_generation] logged.2) = None
      ∧ ∀ input config e,
          executeCapability logged.1 (cap_id capability) input config
            (fold_left (λ h capability, addCapability openai.1 capability h)
               [audio_generation] logged.2) e
          = (inl (NotFoundError (cap_id capability) (id openai.1)), e).
Proof.
  split; [vm_compute; lia|].
  apply (decorator_snapshot toISOString openai.1 openai.2 [audio_generation]).
  vm_compute; lia.
Defined.

End ModelFacts.

(** ** The plugin registry *)

Module RegistryFacts.
Import Js Registry.

Section Facts.
Context {Plugin : Type}.
Variable plugin_id : Plugin → IdValue.

Implicit Types (this : PluginRegistry (Plugin := Plugin)).
Implicit Types (plugin : Plugin) (key : string).

(** An id that starts with [plugin-] passes the validation. *)
Lemma validatePluginId_ok key this :
  String.prefix "plugin-" key = true →
  validatePluginId (IdString key) this = (inr (), this).
Proof.
  intros Hprefix. destruct key as [|a key]; [done|].
  unfold validatePluginId. by rewrite Hprefix.
Qed.

Lemma register_fresh plugin key this :
  plugin_id plugin = IdString key →
  String.prefix "plugin-" key = true →
  JsMap.has key (plugins this) = false →
  register plugin_id (Some plugin) this
  = (inr (), mkRegistry (JsMap.set key plugin (plugins this)) (events this)).
Proof.
  intros Hid Hprefix Hfresh. unfold register. rewrite Hid.
  unfold mbind, Run_bind. rewrite validatePluginId_ok by done.
  unfold reads, modify. simpl. by rewrite Hfresh.
Qed.

Lemma register_collision plugin key this :
  plugin_id plugin = IdString key →
  String.prefix "plugin-" key = true →
  JsMap.has key (plugins this) = true →
  ∃ event,
    register plugin_id (Some plugin) this
    = (inl (CollisionError key (JsMap.keys (plugins this))),
       mkRegistry (plugins this) (events this ++ [event])).
Proof.
  intros Hid Hprefix Htaken. unfold register. rewrite Hid.
  unfold mbind, Run_bind. rewrite validatePluginId_ok by done.
  unfold reads, modify, publishEvent, throw. simpl. rewrite Htaken. simpl.
  by eexists.
Qed.

Lemma getPlugin_found key plugin this :
  JsMap.get key (plugins this) = Some plugin →
  getPlugin key this = (inr (Some plugin), this).
Proof.
  intros Hget. unfold getPlugin, reads, mbind, Run_bind, mret, Run_ret.
  by rewrite Hget.
Qed.

(** C8. A plugin whose id is a string that begins with [plugin-] (so a
    non-empty one), registered under an id that is free, is what
    [getPlugin] returns for that id. Registering a plugin with the same id
    again throws [CollisionError], whose message lists the ids registered
    at that time, all of them; the table of the registry is left as it
    was, and [getPlugin] still returns the plugin registered first. *)
Theorem register_then_getPlugin plugin key this :
  plugin_id plugin = IdString key →
  String.prefix "plugin-" key = true →
  JsMap.has key (plugins this) = false →
  let registered := (register plugin_id (Some plugin) this).2 in
  (register plugin_id (Some plugin) this).1 = inr ()
  ∧ getPlugin key registered = (inr (Some plugin), registered)
  ∧ ∀ second,
      plugin_id second = IdString key →
      let after := (register plugin_id (Some second) registered).2 in
      (register plugin_id (Some second) registered).1
      = inl (JsError
               ("Plugin ID collision: " +:+ key +:+ " is already registered."
                  +:+ LF +:+ "Currently registered plugins: "
                  +:+ join ", " (JsMap.keys (plugins registered))))
      ∧ (∀ k, JsMap.has k (plugins registered) = true
              ↔ k ∈ JsMap.keys (plugins registered))
      ∧ plugins after = plugins registered
      ∧ getPlugin key after = (inr (Some plugin), after).
Proof.
  intros Hid Hprefix Hfresh. cbv zeta.
  rewrite (register_fresh plugin key this) by done.
  cbn [fst snd].
  set (registered := mkRegistry _ _).
  assert (Hget : JsMap.get key (plugins registered) = Some plugin)
    by apply JsMapFacts.get_set_eq.
  split; [done|]. split; [by apply getPlugin_found|].
  intros second Hsecond.
  destruct (register_collision second key registered) as [event ->];
    [done|done|by unfold JsMap.has; rewrite Hget|].
  simpl. split_and!; [done|intros k; apply JsMapFacts.has_keys|done|].
  by apply getPlugin_found.
Qed.

End Facts.

(** *** The character plugin, registered twice *)

Import Plugins.

Lemma register_then_getPlugin_witness :
  let registered := (register id (Some character) registry).2 in
  id character = IdString "plugin-character"
  ∧ String.prefix "plugin-" "plugin-character" = true
  ∧ JsMap.has "plugin-character" (plugins registry) = false
  ∧ (register id (Some character) registry).1 = inr ()
  ∧ getPlugin "plugin-character" registered
    = (inr (Some character), registered)
  ∧ ∀ second,
      id second = IdString "plugin-character" →
      (register id (Some second) registered).1
      = inl (JsError
               ("Plugin ID collision: " +:+ "plugin-character"
                  +:+ " is already registered."
                  +:+ LF +:+ "Currently registered plugins: "
                  +:+ join ", " (JsMap.keys (plugins registered))))
      ∧ (∀ k, JsMap.has k (plugins registered) = true
              ↔ k ∈ JsMap.keys (plugins registered))
      ∧ plugins (register id (Some second) registered).2
        = plugins registered
      ∧ getPlugin "plugin-character"
          (register id (Some second) registered).2
        = (inr (Some character), (register id (Some second) registered).2).
Proof.
  split; [reflexivity|]. split; [reflexivity|]. split; [reflexivity|].
  apply (register_then_getPlugin id character "plugin-character" registry);
    reflexivity.
Defined.

(** The second registration of the id, spelled out. *)
Lemma register_impostor :
  let registered := (register id (Some character) registry).2 in
  plugins registered
  = [("plugin-search", search); ("plugin-character", character)]
  ∧ (register id (Some impostor) registered).1
    = inl (JsError
             ("Plugin ID collision: plugin-character is already registered."
                +:+ LF +:+
              "Currently registered plugins: plugin-search, plugin-character"))
  ∧ plugins (register id (Some impostor) registered).2
    = [("plugin-search", search); ("plugin-character", character)].
Proof. split_and!; reflexivity. Qed.

End RegistryFacts.

(** ** Conversation memory: the other paths of the service *)

Module MemoryMore.
Import Js Memory.

Lemma append_cancel_l (a b c : string) : a +:+ b = a +:+ c → b = c.
Proof.
  induction a as [|x a IH]; [done|].
  change (String x (a +:+ b) = String x (a +:+ c) → b = c).
  intros [= H]. by apply IH.
Qed.

Lemma append_length (a b : string) :
  String.length (a +:+ b) = String.length a + String.length b.
Proof.
  induction a as [|x a IH]; [reflexivity|].
  change (S (String.length (a +:+ b)) = S (String.length a + String.length b)).
  by rewrite IH.
Qed.

(** X6. On one platform, two users share a conversation id only if they
    are the same user. *)
Theorem generateConversationId_same_platform user1 user2 platform :
  generateConversationId user1 platform
  = generateConversationId user2 platform →
  user1 = user2.
Proof.
  unfold generateConversationId. intros H.
  by apply append_cancel_l, (append_cancel_l "-") in H.
Qed.

Lemma generateConversationId_same_platform_witness :
  generateConversationId "alice" "web" = generateConversationId "alice" "web"
  ∧ "alice" = "alice".
Proof.
  split; [reflexivity|].
  apply (generateConversationId_same_platform "alice" "alice" "web").
  reflexivity.
Defined.

(** X7. Between platforms whose names hold no hyphen, the conversation id
    determines the pair: equal ids come from the same platform and the
    same user. *)
Theorem generateConversationId_hyphen_free user1 platform1 user2 platform2 :
  Hyphens.hyphen_free platform1 = true →
  Hyphens.hyphen_free platform2 = true →
  generateConversationId user1 platform1
  = generateConversationId user2 platform2 →
  platform1 = platform2 ∧ user1 = user2.
Proof.
  unfold generateConversationId.
  revert platform2. induction platform1 as [|c1 p1 IH];
    intros [|c2 p2] H1 H2 Heq.
  - split; [done|]. by apply (append_cancel_l "-").
  - change (String Hyphens.hyphen user1 = String c2 (p2 +:+ "-" +:+ user2)) in Heq.
    injection Heq as <- _. by simpl in H2.
  - change (String c1 (p1 +:+ "-" +:+ user1) = String Hyphens.hyphen user2) in Heq.
    injection Heq as -> _. by simpl in H1.
  - change (String c1 (p1 +:+ "-" +:+ user1)
            = String c2 (p2 +:+ "-" +:+ user2)) in Heq.
    injection Heq as -> Heq. simpl in H1, H2.
    apply andb_prop in H1 as [_ H1]. apply andb_prop in H2 as [_ H2].
    destruct (IH p2 H1 H2 Heq) as [-> ->]. done.
Qed.

Lemma generateConversationId_hyphen_free_witness :
  Hyphens.hyphen_free "web" = true
  ∧ Hyphens.hyphen_free "web" = true
  ∧ generateConversationId "alice" "web" = generateConversationId "alice" "web"
  ∧ "web" = "web" ∧ "alice" = "alice".
Proof.
  split; [reflexivity|]. split; [reflexivity|]. split; [reflexivity|].
  apply (generateConversationId_hyphen_free "alice" "web" "alice" "web");
    reflexivity.
Defined.

(** X8. The id does not determine the pair in general: a user whose name
    is [extra-user] on a platform has the conversation id of the user
    [user] on the platform [platform-extra], a different platform. *)
Theorem generateConversationId_collision user platform extra :
  generateConversationId (extra +:+ "-" +:+ user) platform
  = generateConversationId user (platform +:+ "-" +:+ extra)
  ∧ platform ≠ platform +:+ "-" +:+ extra.
Proof.
  unfold generateConversationId. split.
  - by rewrite !ModelFacts.append_assoc.
  - intros H. apply (f_equal String.length) in H.
    rewrite append_length in H. simpl in H. lia.
Qed.

(** Finds the info events published before the last events of a run. *)
Ltac info_events_of infos :=
  solve [refine (ex_intro _ infos (conj _ eq_refl)); repeat constructor].

Ltac info_events :=
  rewrite <- ?app_assoc; simpl;
  first
    [ info_events_of uconstr:([])
    | info_events_of uconstr:([_])
    | info_events_of uconstr:([_; _])
    | info_events_of uconstr:([_; _; _])
    | info_events_of uconstr:([_; _; _; _])
    | info_events_of uconstr:([_; _; _; _; _])
    | info_events_of uconstr:([_; _; _; _; _; _])
    | info_events_of uconstr:([_; _; _; _; _; _; _])
    | info_events_of uconstr:([_; _; _; _; _; _; _; _])
    | info_events_of uconstr:([_; _; _; _; _; _; _; _; _])
    | info_events_of uconstr:([_; _; _; _; _; _; _; _; _; _]) ].

Section More.
Context {Num Item Env : Type}.
Variable Number_toString : Num → string.
Variable item_id : Item → option string.
Variable JSON_stringify : list Item → Result string.
Variable Date_now : Env → Num.

Implicit Types (this : MemoryService (Num := Num) (Env := Env)).
Implicit Types (w : World (Num := Num) (Item := Item) (Env := Env)).
Implicit Types (user platform response message : string).
Implicit Types (chain : list Item).

(** X5. Whatever the persistence collaborator is, [getOrCreateConversation]
    sends the fetch and, only when the fetch throws, one create request
    with the id [platform-user]. It returns that id when the fetch returns
    or the create returns, whatever conversation or id they returned; it
    throws only when both throw, and then what the create threw: what the
    fetch threw is dropped. *)
Theorem getOrCreateConversation_outcome this user platform w :
  let conversationId := generateConversationId user platform in
  let r := getOrCreateConversation this user platform w in
  match provider_getConversation (provider this) conversationId (env w) with
  | (inr _, e1) =>
      r.1 = inr conversationId ∧ env r.2 = e1
      ∧ calls r.2 = calls w ++ [CallGetConversation conversationId]
  | (inl _, e1) =>
      let options := Some (mkOptions (Some conversationId)) in
      let created :=
        provider_createConversation (provider this) options e1 in
      r.1 = match created.1 with
            | inr _ => inr conversationId
            | inl error => inl error
            end
      ∧ env r.2 = created.2
      ∧ calls r.2 =
          calls w ++
            [CallGetConversation conversationId;
             CallCreateConversation options]
  end.
Proof.
  MemoryFacts.run_service.
  destruct (provider_getConversation _ _ _) as [[e|c] e1]; simpl; [|done].
  destruct (provider_createConversation _ _ _) as [[e'|c] e2]; simpl;
    by rewrite <- app_assoc.
Qed.

(** What [storeUserInteraction] does after the conversation step: nothing
    when that step threw, one [storeMessage] request otherwise, whose
    outcome is the outcome of the call. *)
Lemma storeUserInteraction_run
    this user platform message timestamp messageId w :
  let conversationId := generateConversationId user platform in
  let r0 := getOrCreateConversation this user platform w in
  let r :=
    storeUserInteraction Number_toString this user platform message
      timestamp messageId w in
  let stored :=
    mkMessage
      (or_else messageId (platform +:+ "-" +:+ Number_toString timestamp))
      "user" message timestamp None None in
  match r0.1 with
  | inl error =>
      r.1 = inl error ∧ env r.2 = env r0.2 ∧ calls r.2 = calls r0.2
  | inr _ =>
      r.1 = (provider_storeMessage (provider this) stored conversationId
               (env r0.2)).1
      ∧ env r.2 = (provider_storeMessage (provider this) stored
                     conversationId (env r0.2)).2
      ∧ calls r.2 = calls r0.2 ++ [CallStoreMessage stored conversationId]
  end.
Proof.
  MemoryFacts.run_service.
  destruct (provider_getConversation _ _ _) as [[e|c] e1]; simpl.
  - destruct (provider_createConversation _ _ _) as [[e'|c] e2]; simpl;
      [done|].
    by destruct (provider_storeMessage _ _ _ _) as [[e'|[]] e3].
  - by destruct (provider_storeMessage _ _ _ _) as [[e'|[]] e3].
Qed.

(** The events of [storeUserInteraction]: info events, closed by the
    failure event when the call throws. *)
Lemma storeUserInteraction_events
    this user platform message timestamp messageId w :
  let r :=
    storeUserInteraction Number_toString this user platform message
      timestamp messageId w in
  ∃ infos,
    Forall (λ event, logLevel event = LogInfo) infos
    ∧ events r.2 =
        events w ++ infos ++
          match r.1 with
          | inl error =>
              [mkEvent "memory.user.interaction.failed"
                 "Failed to store user interaction" LogError
                 (MObj [("error", MStr (error_text error));
                        ("user", MStr user); ("platform", MStr platform)])]
          | inr _ => []
          end.
Proof.
  MemoryFacts.run_service.
  destruct (provider_getConversation _ _ _) as [[e|c] e1]; simpl.
  - destruct (provider_createConversation _ _ _) as [[e'|c] e2]; simpl;
      [info_events|].
    destruct (provider_storeMessage _ _ _ _) as [[e'|[]] e3]; simpl;
      info_events.
  - destruct (provider_storeMessage _ _ _ _) as [[e'|[]] e3]; simpl;
      info_events.
Qed.

(** X1. A [storeUserInteraction] that returns has sent, after the requests
    of the conversation step, exactly one write: the message
    [{id, role: "user", content: message, timestamp}] in the conversation
    [platform-user], whose id is the [messageId] given when there is a
    non-empty one and [platform-timestamp] otherwise, the time, whatever
    number it is, rendered as a template literal renders it, and which
    refers to no context and to no user message. That write returned, on
    the storage that the conversation step left, and what it left is the
    storage at the end of the call. *)
Theorem storeUserInteraction_stores_user_message
    this user platform message timestamp messageId w w' :
  storeUserInteraction Number_toString this user platform message timestamp
    messageId w
  = (inr (), w') →
  let stored :=
    mkMessage
      (match messageId with
       | Some given =>
           if String.eqb given ""
           then platform +:+ "-" +:+ Number_toString timestamp
           else given
       | None => platform +:+ "-" +:+ Number_toString timestamp
       end)
      "user" message timestamp None None in
  ∃ earlier,
    calls w' =
      calls w ++ earlier ++ [CallStoreMessage stored (platform +:+ "-" +:+ user)]
    ∧ Forall (λ c, is_write c = false) earlier
    ∧ provider_storeMessage (provider this) stored (platform +:+ "-" +:+ user)
        (env (getOrCreateConversation this user platform w).2)
      = (inr (), env w').
Proof.
  intros Hrun.
  pose proof (storeUserInteraction_run this user platform message timestamp
                messageId w) as Hshape.
  rewrite Hrun in Hshape. simpl in Hshape.
  destruct (MemoryFacts.getOrCreateConversation_calls this user platform w)
    as (earlier & Hearlier & Hwrites).
  exists earlier.
  destruct (getOrCreateConversation this user platform w).1;
    [by destruct Hshape|].
  destruct Hshape as (Hres & Henv & ->).
  split_and!; [by rewrite Hearlier, <- app_assoc | done |].
  unfold generateConversationId, or_else in Hres, Henv.
  destruct (provider_storeMessage _ _ _ _) as [res e]. simpl in *.
  by rewrite <- Hres, Henv.
Qed.

(** X2. A [storeUserInteraction] that throws rethrows what it caught, as
    it is: the error of the conversation step, and then no write request
    was sent, or the error of the one [storeMessage] request it sent (there
    is no second attempt), a message whose generated id renders the time,
    whatever number it is, as a template literal renders it. The last
    event it publishes is the error event [memory.user.interaction.failed]
    with the text of that error; the events before it are info events. *)
Theorem storeUserInteraction_rethrows
    this user platform message timestamp messageId w error :
  let conversationId := generateConversationId user platform in
  let r0 := getOrCreateConversation this user platform w in
  let r :=
    storeUserInteraction Number_toString this user platform message
      timestamp messageId w in
  let stored :=
    mkMessage
      (or_else messageId (platform +:+ "-" +:+ Number_toString timestamp))
      "user" message timestamp None None in
  r.1 = inl error →
  (r0.1 = inl error ∧ calls r.2 = calls r0.2
   ∨ r0.1 = inr conversationId
     ∧ (provider_storeMessage (provider this) stored conversationId
          (env r0.2)).1 = inl error
     ∧ calls r.2 = calls r0.2 ++ [CallStoreMessage stored conversationId])
  ∧ ∃ infos,
      Forall (λ event, logLevel event = LogInfo) infos
      ∧ events r.2 =
          events w ++ infos ++
            [mkEvent "memory.user.interaction.failed"
               "Failed to store user interaction" LogError
               (MObj [("error", MStr (error_text error));
                      ("user", MStr user); ("platform", MStr platform)])].
Proof.
  MemoryFacts.run_service.
  destruct (provider_getConversation _ _ _) as [[e|c] e1]; simpl.
  - destruct (provider_createConversation _ _ _) as [[e'|c] e2]; simpl.
    { intros [= <-]. split; [by left | info_events]. }
    destruct (provider_storeMessage _ _ _ _) as [[e'|[]] e3]; simpl;
      [|done].
    intros [= <-]. split; [right; by rewrite <- !app_assoc | info_events].
  - destruct (provider_storeMessage _ _ _ _) as [[e'|[]] e3]; simpl;
      [|done].
    intros [= <-]. split; [right; by rewrite <- !app_assoc | info_events].
Qed.

(** X3. [storeAssistantInteraction] is not transactional. With a chain
    whose first element has a non-empty id: when the conversation step
    throws, nothing more is sent; when [JSON.stringify] throws on the
    chain, nothing more is sent either and that error is thrown, the
    storage being as the conversation step left it; when the context
    write throws, the message write is not attempted and that error is
    thrown; when the context write returns, the message write is sent,
    and its outcome is the outcome of the call, so that a message write
    that throws leaves the context it refers to in the storage. *)
Theorem storeAssistantInteraction_steps
    this user platform response chain first userMessageId w :
  head chain = Some first →
  item_id first = Some userMessageId →
  userMessageId ≠ "" →
  let conversationId := generateConversationId user platform in
  let r0 := getOrCreateConversation this user platform w in
  let r :=
    storeAssistantInteraction Number_toString item_id JSON_stringify
      Date_now this user platform response chain w in
  let timestamp := Date_now (env r0.2) in
  match r0.1, JSON_stringify chain with
  | inl error, _ | inr _, inl error =>
      r.1 = inl error ∧ env r.2 = env r0.2 ∧ calls r.2 = calls r0.2
  | inr _, inr content =>
      let context :=
        mkContext
          (conversationId +:+ "-context-" +:+ Number_toString timestamp)
          "context_chain" content timestamp in
      let message :=
        mkMessage
          (conversationId +:+ "-assistant-" +:+ Number_toString timestamp)
          "assistant" response timestamp (Some (ctx_id context))
          (Some userMessageId) in
      match
        provider_storeContext (provider this) context conversationId
          (env r0.2)
      with
      | (inl error, e1) =>
          r.1 = inl error ∧ env r.2 = e1
          ∧ calls r.2 =
              calls r0.2 ++ [CallStoreContext context conversationId]
      | (inr _, e1) =>
          r.1 = (provider_storeMessage (provider this) message
                   conversationId e1).1
          ∧ env r.2 = (provider_storeMessage (provider this) message
                         conversationId e1).2
          ∧ calls r.2 =
              calls r0.2 ++
                [CallStoreContext context conversationId;
                 CallStoreMessage message conversationId]
      end
  end.
Proof.
  intros Hfirst Huid Hnonempty. MemoryFacts.run_service.
  rewrite Hfirst. simpl. rewrite Huid.
  apply String.eqb_neq in Hnonempty. rewrite Hnonempty. simpl.
  destruct (provider_getConversation _ _ _) as [[e|c] e1]; simpl.
  - destruct (provider_createConversation _ _ _) as [[e'|c] e2]; simpl;
      [done|].
    destruct (JSON_stringify chain) as [e'|content]; simpl; [done|].
    destruct (provider_storeContext _ _ _ _) as [[e'|[]] e3]; simpl;
      [by rewrite <- !app_assoc|].
    destruct (provider_storeMessage _ _ _ _) as [[e'|[]] e4]; simpl;
      by rewrite <- !app_assoc.
  - destruct (JSON_stringify chain) as [e'|content]; simpl; [done|].
    destruct (provider_storeContext _ _ _ _) as [[e'|[]] e3]; simpl;
      [by rewrite <- !app_assoc|].
    destruct (provider_storeMessage _ _ _ _) as [[e'|[]] e4]; simpl;
      by rewrite <- !app_assoc.
Qed.

(** X4. Every run of [storeAssistantInteraction] publishes info events
    and, exactly when it throws, closes them with one error event,
    [memory.assistant.interaction.failed], that carries the text of the
    value it throws. *)
Theorem storeAssistantInteraction_events
    this user platform response chain w :
  let r :=
    storeAssistantInteraction Number_toString item_id JSON_stringify
      Date_now this user platform response chain w in
  ∃ infos,
    Forall (λ event, logLevel event = LogInfo) infos
    ∧ events r.2 =
        events w ++ infos ++
          match r.1 with
          | inl error =>
              [mkEvent "memory.assistant.interaction.failed"
                 "Failed to store assistant interaction" LogError
                 (MObj [("error", MStr (error_text error));
                        ("user", MStr user); ("platform", MStr platform)])]
          | inr _ => []
          end.
Proof.
  MemoryFacts.run_service.
  change (option_bind _ _ item_id (head chain)) with (head chain ≫= item_id).
  destruct (provider_getConversation _ _ _) as [[e|c] e1]; simpl.
  - destruct (provider_createConversation _ _ _) as [[e'|c] e2]; simpl;
      [info_events|].
    destruct (JSON_stringify chain) as [e'|content]; simpl; [info_events|].
    destruct (head chain ≫= item_id) as [uid|]; simpl; [|info_events].
    destruct (String.eqb uid ""); simpl; [info_events|].
    destruct (provider_storeContext _ _ _ _) as [[e'|[]] e3]; simpl;
      [info_events|].
    destruct (provider_storeMessage _ _ _ _) as [[e'|[]] e4]; simpl;
      info_events.
  - destruct (JSON_stringify chain) as [e'|content]; simpl; [info_events|].
    destruct (head chain ≫= item_id) as [uid|]; simpl; [|info_events].
    destruct (String.eqb uid ""); simpl; [info_events|].
    destruct (provider_storeContext _ _ _ _) as [[e'|[]] e3]; simpl;
      [info_events|].
    destruct (provider_storeMessage _ _ _ _) as [[e'|[]] e4]; simpl;
      info_events.
Qed.

End More.

(** *** Runs on the stores *)

Import Providers ReadOnly.

Lemma storeUserInteraction_stores_user_message_witness :
  let r0 :=
    getOrCreateConversation (Item := Item) (service in_memory) "alice" "web"
      (start empty_store) in
  let r :=
    storeUserInteraction (Item := Item) Millis_toString (service in_memory)
      "alice" "web" "hi" at_1000 None (start empty_store) in
  let stored := mkMessage "web-1000" "user" "hi" at_1000 None None in
  r = (inr (), r.2)
  ∧ (∃ earlier,
       calls r.2 =
         calls (start empty_store) ++ earlier ++
           [CallStoreMessage stored "web-alice"]
       ∧ Forall (λ c, is_write c = false) earlier
       ∧ provider_storeMessage (provider (service in_memory)) stored
           "web-alice" (env r0.2) = (inr (), env r.2))
  ∧ env r.2 =
      mkStore [("web-alice", mkConversation "web-alice" [stored] [])]
        at_2000.
Proof.
  split; [vm_compute; reflexivity|].
  split; [|vm_compute; reflexivity].
  apply (storeUserInteraction_stores_user_message Millis_toString
           (service in_memory) "alice" "web" "hi" at_1000 None
           (start empty_store)).
  vm_compute; reflexivity.
Defined.

Lemma storeUserInteraction_rethrows_witness :
  let r :=
    storeUserInteraction (Item := Item) Millis_toString
      (service unreachable) "alice" "web" "hi" at_1000 None
      (start at_2000) in
  r.1 = inl unavailable
  ∧ ∃ infos,
      Forall (λ event, logLevel event = LogInfo) infos
      ∧ events r.2 =
          infos ++
            [mkEvent "memory.user.interaction.failed"
               "Failed to store user interaction" LogError
               (MObj [("error", MStr "storage unavailable");
                      ("user", MStr "alice"); ("platform", MStr "web")])].
Proof.
  split; [vm_compute; reflexivity|].
  apply (storeUserInteraction_rethrows (Item := Item) Millis_toString
           (service unreachable) "alice" "web" "hi" at_1000 None
           (start at_2000) unavailable).
  vm_compute; reflexivity.
Defined.

(** On the read-only store the context write is refused: the call throws
    that error and no message write is sent. *)
Lemma storeAssistantInteraction_steps_witness :
  let r :=
    storeAssistantInteraction Millis_toString item_id items_json clock
      (service read_only) "alice" "web" "hello" [user_message]
      (start empty_store) in
  head [user_message] = Some user_message
  ∧ item_id user_message = Some "web-1000"
  ∧ "web-1000" ≠ ""
  ∧ items_json [user_message] = inr user_message_json
  ∧ r.1 = inl refused
  ∧ calls r.2 =
      [CallGetConversation "web-alice";
       CallCreateConversation (Some (mkOptions (Some "web-alice")));
       CallStoreContext
         (mkContext "web-alice-context-2000" "context_chain"
            user_message_json at_2000)
         "web-alice"].
Proof.
  split; [reflexivity|]. split; [reflexivity|]. split; [discriminate|].
  split; [reflexivity|].
  pose proof (storeAssistantInteraction_steps Millis_toString item_id
                items_json clock (service read_only) "alice" "web" "hello"
                [user_message] user_message "web-1000" (start empty_store)
                eq_refl eq_refl ltac:(discriminate)) as Hsteps.
  destruct Hsteps as (Hres & _ & Hcalls). split; [exact Hres|exact Hcalls].
Defined.

(** With a first element that has an id and a [BigInt] further down the
    chain, [JSON.stringify] throws after the conversation step: the
    conversation has been created, and no write follows. *)
Example storeAssistantInteraction_unserializable :
  let r :=
    storeAssistantInteraction Millis_toString item_id items_json clock
      (service in_memory) "alice" "web" "hello" [user_message; counted]
      (start empty_store) in
  r.1 = inl (JsError "Do not know how to serialize a BigInt")
  ∧ calls r.2 =
      [CallGetConversation "web-alice";
       CallCreateConversation (Some (mkOptions (Some "web-alice")))].
Proof. split; vm_compute; reflexivity. Qed.

End MemoryMore.

(** ** Maps: order and keys *)

Module JsMapMore.
Import JsMap.

Section Facts.
Context {V : Type}.
Implicit Types (m : JsMap.t V) (key : string) (value : V).

Lemma get_absent key m : key ∉ keys m → get key m = None.
Proof.
  intros Hnot. apply JsMapFacts.has_false_get.
  destruct (has key m) eqn:Hhas; [|done].
  by apply JsMapFacts.has_keys in Hhas.
Qed.

Lemma get_present key m : key ∈ keys m → is_Some (get key m).
Proof.
  intros Hin%JsMapFacts.has_keys. unfold has in Hin.
  destruct (get key m); [by eexists | done].
Qed.

(** A new key goes last. *)
Lemma set_absent key value m :
  get key m = None → set key value m = m ++ [(key, value)].
Proof.
  induction m as [|[k v] rest IH]; simpl; [done|].
  destruct (String.eqb k key); [done|]. intros H. by rewrite IH.
Qed.

(** Writing never changes the keys of a map that has the key, nor their
    order. *)
Lemma keys_set_present key value m :
  is_Some (get key m) → keys (set key value m) = keys m.
Proof.
  unfold keys. induction m as [|[k v] rest IH]; simpl.
  - by intros [? ?].
  - destruct (String.eqb k key) eqn:E; simpl; [done|].
    intros H. by rewrite IH.
Qed.

Lemma keys_set key value m :
  keys (set key value m)
  = if has key m then keys m else keys m ++ [key].
Proof.
  unfold has. destruct (get key m) eqn:E.
  - apply keys_set_present. by eexists.
  - rewrite set_absent by done. unfold keys. by rewrite map_app.
Qed.

Lemma NoDup_keys_set key value m :
  NoDup (keys m) → NoDup (keys (set key value m)).
Proof.
  intros Hnodup. rewrite keys_set. destruct (has key m) eqn:E; [done|].
  apply NoDup_app. split_and!; [done| |apply NoDup_singleton].
  intros k Hk ->%list_elem_of_singleton.
  apply JsMapFacts.has_keys in Hk. congruence.
Qed.

Lemma Forall_set (P : string * V → Prop) key value m :
  Forall P m → P (key, value) → Forall P (set key value m).
Proof.
  intros Hall Hnew. induction Hall as [|[k v] rest Hkv Hrest IH]; simpl.
  - by constructor.
  - destruct (String.eqb k key) eqn:E; constructor; eauto.
    by apply String.eqb_eq in E as ->.
Qed.

Lemma values_set key value m x :
  x ∈ values (set key value m) → x = value ∨ x ∈ values m.
Proof.
  unfold values. induction m as [|[k v] rest IH]; simpl.
  - intros ->%list_elem_of_singleton. by left.
  - destruct (String.eqb k key); simpl; rewrite !elem_of_cons.
    + intros [->|?]; [by left | right; by right].
    + intros [->|[->|?]%IH]; [right; by left | by left | right; by right].
Qed.

Lemma values_get key m x : get key m = Some x → x ∈ values m.
Proof.
  unfold values. induction m as [|[k v] rest IH]; simpl; [done|].
  destruct (String.eqb k key).
  - intros [= ->]. by left.
  - intros H. right. by apply IH.
Qed.

End Facts.
End JsMapMore.

(** ** Model providers: tables, order and wrapping *)

Module ModelMore.
Import Js Model Keyed.

Section More.
Context {Val Schema Num W : Type}.
Variable toISOString : W → string.

Abbreviation Capability :=
  (ModelCapability (Val := Val) (Schema := Schema) (Num := Num) (W := W)).
Abbreviation Provider := (ModelProvider (Val := Val) (Num := Num) (W := W)).
Implicit Types (this model other : Provider) (capability : Capability).
Implicit Types (h : list (JsMap.t Capability)).

(** X9. A capability that [addCapability] stored is what [getCapability]
    and [hasCapability] find under its id; the capabilities under other ids
    are those found before, and the table of every other provider is
    untouched. *)
Theorem addCapability_then_getCapability this capability h :
  capabilities this < length h →
  let h' := addCapability this capability h in
  getCapability this (cap_id capability) h' = Some capability
  ∧ hasCapability this (cap_id capability) h' = true
  ∧ (∀ capabilityId,
       capabilityId ≠ cap_id capability →
       getCapability this capabilityId h' = getCapability this capabilityId h)
  ∧ (∀ other,
       capabilities other ≠ capabilities this →
       table other h' = table other h).
Proof.
  intros Hlt. simpl. unfold getCapability, hasCapability, JsMap.has.
  rewrite ModelFacts.table_addCapability by done.
  rewrite JsMapFacts.get_set_eq. split_and!; [done..| |].
  - intros k Hk. by rewrite JsMapFacts.get_set_ne.
  - intros other Hother. by apply ModelFacts.table_addCapability_other.
Qed.

(** X10. [getCapabilities] keeps the order of insertion: a capability whose
    id the provider does not have is added last; one whose id it has takes
    the place of the capability stored under that id, so that the ids and
    their order are as before. *)
Theorem addCapability_order this capability h :
  capabilities this < length h →
  let h' := addCapability this capability h in
  if hasCapability this (cap_id capability) h then
    JsMap.keys (table this h') = JsMap.keys (table this h)
    ∧ length (getCapabilities this h') = length (getCapabilities this h)
  else
    getCapabilities this h' = getCapabilities this h ++ [capability]
    ∧ JsMap.keys (table this h')
      = JsMap.keys (table this h) ++ [cap_id capability].
Proof.
  intros Hlt. simpl. unfold getCapabilities, hasCapability.
  rewrite ModelFacts.table_addCapability by done.
  rewrite JsMapMore.keys_set.
  destruct (JsMap.has _ _) eqn:Hhas.
  - split; [done|]. unfold JsMap.values. rewrite !length_map.
    rewrite <- !(length_map fst). fold (JsMap.keys (V := Capability)).
    change (length (JsMap.keys (JsMap.set (cap_id capability) capability
                                  (table this h)))
            = length (JsMap.keys (table this h))).
    rewrite JsMapMore.keys_set. by rewrite Hhas.
  - split; [|done]. apply JsMapFacts.has_false_get in Hhas.
    rewrite JsMapMore.set_absent by done. unfold JsMap.values.
    by rewrite map_app.
Qed.

(** A table keyed by id stays so when a capability is added. *)
Lemma keyed_by_id_set capability (m : JsMap.t Capability) :
  keyed_by_id m →
  keyed_by_id (JsMap.set (cap_id capability) capability m).
Proof.
  intros [Hkeys Hnodup]. split.
  - by apply JsMapMore.Forall_set.
  - by apply JsMapMore.NoDup_keys_set.
Qed.

Lemma keyed_by_id_ids (m : JsMap.t Capability) :
  keyed_by_id m → map cap_id (JsMap.values m) = JsMap.keys m.
Proof.
  intros [Hkeys _]. unfold JsMap.values, JsMap.keys.
  induction Hkeys as [|[k c] rest Hk _ IH]; simpl; [done|].
  simpl in Hk. by rewrite IH, Hk.
Qed.

Lemma keyed_by_id_additions this (added : list Capability) h :
  capabilities this < length h →
  keyed_by_id (table this h) →
  keyed_by_id
    (table this
       (fold_left (λ h capability, addCapability this capability h)
          added h)).
Proof.
  revert h. induction added as [|c cs IH]; intros h Hlt Hkeyed; simpl;
    [done|].
  apply IH; [by rewrite ModelFacts.length_addCapability|].
  rewrite ModelFacts.table_addCapability by done.
  by apply keyed_by_id_set.
Qed.

(** X11. A provider that is constructed and then given capabilities through
    [addCapability] only, in any number and order, holds each capability
    under its own id and no id twice: the capabilities it lists have
    distinct ids, and every capability added is available under its id. *)
Theorem provider_table_keyed_by_id
    id name description checkHealth init (added : list Capability) h :
  let constructed := ModelProviderBase id name description checkHealth init h in
  let this := constructed.1 in
  let h' :=
    fold_left (λ h capability, addCapability this capability h)
      added constructed.2 in
  keyed_by_id (table this h')
  ∧ NoDup (map cap_id (getCapabilities this h'))
  ∧ ∀ capability,
      capability ∈ added → hasCapability this (cap_id capability) h' = true.
Proof.
  simpl. set (this := mkModel _ _ _ _ _ _).
  assert (Hlt : capabilities this < length (h ++ [JsMap.empty])).
  { rewrite length_app. simpl. lia. }
  assert (Hkeyed : keyed_by_id
    (table this
       (fold_left (λ h capability, addCapability this capability h)
          added (h ++ [JsMap.empty])))).
  { apply keyed_by_id_additions; [done|].
    unfold table. simpl. rewrite list_lookup_middle by done.
    split; constructor. }
  split_and!; [done| |].
  - unfold getCapabilities. rewrite keyed_by_id_ids by done. apply Hkeyed.
  - intros capability Hin. by apply ModelFacts.has_additions.
Qed.

(** *** What the decorator holds *)

Lemma decorate_keyed this_id (done todo : JsMap.t Capability) :
  keyed_by_id (done ++ todo) →
  fold_left
    (λ m capability,
       JsMap.set (cap_id capability)
         (decoratedCapability toISOString this_id capability) m)
    (JsMap.values todo)
    (map (λ kv, (kv.1, decoratedCapability toISOString this_id kv.2)) done)
  = map (λ kv, (kv.1, decoratedCapability toISOString this_id kv.2))
      (done ++ todo).
Proof.
  revert done. induction todo as [|[k c] rest IH]; intros done Hkeyed; simpl.
  - by rewrite app_nil_r.
  - destruct Hkeyed as [Hkeys Hnodup].
    assert (Hk : k = cap_id c).
    { apply Forall_app in Hkeys as [_ Hkeys]. by inversion Hkeys. }
    subst k.
    assert (Hfresh : cap_id c ∉ JsMap.keys done).
    { unfold JsMap.keys in *. rewrite map_app in Hnodup.
      apply NoDup_app in Hnodup as (_ & Hdisjoint & _).
      intros Hin. apply (Hdisjoint _ Hin). simpl. by left. }
    rewrite JsMapMore.set_absent.
    + specialize (IH (done ++ [(cap_id c, c)])).
      rewrite map_app in IH. simpl in IH.
      rewrite <- app_assoc in IH. simpl in IH. apply IH.
      by split.
    + apply JsMapMore.get_absent. unfold JsMap.keys in *.
      by rewrite map_map.
Qed.

(** X12. Wrapping a provider whose table is keyed by id keeps its
    capabilities one for one and in order: the wrapper lists the decorated
    form of each capability at the place of that capability, under the
    same id, name, description and schemas, and its own table is keyed by
    id. *)
Theorem decorator_keeps_order model h :
  keyed_by_id (table model h) →
  let wrapped := LoggingModelDecorator toISOString model h in
  getCapabilities wrapped.1 wrapped.2
  = map (decoratedCapability toISOString (id model))
      (getCapabilities model h)
  ∧ map cap_id (getCapabilities wrapped.1 wrapped.2)
    = map cap_id (getCapabilities model h)
  ∧ map cap_name (getCapabilities wrapped.1 wrapped.2)
    = map cap_name (getCapabilities model h)
  ∧ map cap_description (getCapabilities wrapped.1 wrapped.2)
    = map cap_description (getCapabilities model h)
  ∧ keyed_by_id (table wrapped.1 wrapped.2).
Proof.
  intros Hkeyed. cbv zeta. rewrite ModelFacts.LoggingModelDecorator_run.
  cbn [fst snd]. set (this := mkModel _ _ _ _ _ _).
  set (heap := h ++ [_]).
  assert (Htable :
    table this heap
    = map (λ kv, (kv.1, decoratedCapability toISOString (id model) kv.2))
        (table model h)).
  { unfold table at 1, heap. simpl. rewrite list_lookup_middle by done.
    simpl. exact (decorate_keyed (id model) [] (table model h) Hkeyed). }
  unfold getCapabilities. rewrite Htable.
  unfold JsMap.values. rewrite !map_map. simpl.
  split_and!; [done..|].
  destruct Hkeyed as [Hkeys Hnodup]. split.
  - apply Forall_map. by eapply Forall_impl.
  - unfold JsMap.keys. by rewrite map_map.
Qed.

Lemma fold_has this_id (caps : list Capability) key
    (m : JsMap.t Capability) :
  JsMap.has key m = true ∨ (∃ c, c ∈ caps ∧ cap_id c = key) →
  JsMap.has key
    (fold_left
       (λ m capability,
          JsMap.set (cap_id capability)
            (decoratedCapability toISOString this_id capability) m)
       caps m) = true.
Proof.
  revert m. induction caps as [|c caps IH]; intros m; simpl.
  - intros [H|(c & Hin & _)]; [done|]. by apply elem_of_nil in Hin.
  - intros H. apply IH. unfold JsMap.has.
    destruct (decide (cap_id c = key)) as [<-|Hne].
    + left. by rewrite JsMapFacts.get_set_eq.
    + rewrite JsMapFacts.get_set_ne by done.
      destruct H as [H|(c' & [->|Hin]%elem_of_cons & Hid)];
        [by left|done|right; eauto].
Qed.

(** X13. The wrapper has a capability under an id exactly when one of the
    capabilities that the underlying provider listed at wrap time has that
    id. *)
Theorem decorator_has_iff model h capabilityId :
  let wrapped := LoggingModelDecorator toISOString model h in
  hasCapability wrapped.1 capabilityId wrapped.2 = true
  ↔ ∃ capability,
      capability ∈ getCapabilities model h
      ∧ cap_id capability = capabilityId.
Proof.
  cbv zeta. rewrite ModelFacts.LoggingModelDecorator_run. simpl.
  unfold hasCapability, table. simpl.
  rewrite list_lookup_middle by done. simpl. unfold decorated_table. split.
  - unfold JsMap.has.
    destruct (JsMap.get capabilityId _) as [decorated|] eqn:Hget; [|done].
    intros _.
    destruct (ModelFacts.fold_get_decorated toISOString _ _ _ _ _ Hget)
      as [Hempty|(c & Hin & Hid & _)]; [done|eauto].
  - intros H. apply fold_has. by right.
Qed.

(** X14. Wrapping leaves every provider that exists as it was, the wrapped
    one included: same table, same executions. And a capability added to
    the wrapper afterwards stays in the wrapper: it does not reach the
    underlying provider. *)
Theorem decorator_leaves_model model h :
  capabilities model < length h →
  let wrapped := LoggingModelDecorator toISOString model h in
  (∀ other, capabilities other < length h →
            table other wrapped.2 = table other h)
  ∧ (∀ capabilityId input config,
       executeCapability model capabilityId input config wrapped.2
       = executeCapability model capabilityId input config h)
  ∧ ∀ capability,
      let h' := addCapability wrapped.1 capability wrapped.2 in
      getCapability wrapped.1 (cap_id capability) h' = Some capability
      ∧ table model h' = table model h.
Proof.
  intros Hlt. cbv zeta. rewrite ModelFacts.LoggingModelDecorator_run. simpl.
  set (this := mkModel _ _ _ _ _ _).
  set (snapshot := decorated_table _ _ _).
  assert (Hother : ∀ other, capabilities other < length h →
    table other (h ++ [snapshot]) = table other h).
  { intros other Hother. by apply ModelFacts.table_alloc. }
  split_and!; [done| |].
  - intros capabilityId input config. unfold executeCapability.
    by rewrite Hother.
  - intros capability. split.
    + unfold getCapability. rewrite ModelFacts.table_addCapability.
      * apply JsMapFacts.get_set_eq.
      * rewrite length_app. simpl. lia.
    + rewrite ModelFacts.table_addCapability_other by (simpl; lia).
      by apply Hother.
Qed.

Lemma fold_values_decorated this_id (caps : list Capability)
    (m : JsMap.t Capability) decorated :
  decorated ∈
    JsMap.values
      (fold_left
         (λ m capability,
            JsMap.set (cap_id capability)
              (decoratedCapability toISOString this_id capability) m)
         caps m) →
  decorated ∈ JsMap.values m
  ∨ ∃ c, c ∈ caps
         ∧ decorated = decoratedCapability toISOString this_id c.
Proof.
  revert m. induction caps as [|c caps IH]; intros m; simpl; [by left|].
  intros [[->|Hm]%JsMapMore.values_set|(c' & Hin & ->)]%IH.
  - right. exists c. split; [by left|done].
  - by left.
  - right. exists c'. split; [by right|done].
Qed.

(** X15. Wrappers stack. Executing a capability through a wrapper of a
    wrapper publishes the prompt event twice before the underlying
    execution, and after it the response event twice, or the error event
    twice: every layer adds its own pair around the layer below, under the
    same provider id and capability id, and the outcome is still that of
    the underlying execution. *)
Theorem decorator_twice model h capabilityId decorated input config e :
  let inner := LoggingModelDecorator toISOString model h in
  let outer := LoggingModelDecorator toISOString inner.1 inner.2 in
  getCapability outer.1 capabilityId outer.2 = Some decorated →
  ∃ capability,
    capability ∈ getCapabilities model h
    ∧ cap_id capability = capabilityId
    ∧ executeCapability outer.1 capabilityId input config outer.2 e
      = match
          execute capability input config
            (mkEnv (world e)
               (sink e ++
                  [prompt_event (id model) capability input config;
                   prompt_event (id model) capability input config]))
        with
        | (inr response, e') =>
            (inr response,
             mkEnv (world e')
               (sink e' ++
                  [response_event (id model) capability response
                     (toISOString (world e')) config;
                   response_event (id model) capability response
                     (toISOString (world e')) config]))
        | (inl error, e') =>
            (inl error,
             mkEnv (world e')
               (sink e' ++
                  [error_event (id model) capability error input;
                   error_event (id model) capability error input]))
        end.
Proof.
  cbv zeta. rewrite (ModelFacts.LoggingModelDecorator_run toISOString model h).
  cbn [fst snd]. set (this := mkModel _ _ _ _ _ _).
  set (snapshot := decorated_table _ _ _).
  rewrite (ModelFacts.LoggingModelDecorator_run toISOString this). simpl.
  unfold getCapability, executeCapability, table. simpl.
  rewrite list_lookup_middle by (by rewrite length_app; simpl; lia).
  simpl. intros Hget. rewrite Hget.
  destruct (ModelFacts.fold_get_decorated toISOString _ _ _ _ _ Hget)
    as [Hempty|(c' & Hin' & Hid' & ->)]; [done|].
  unfold getCapabilities, table in Hin'. simpl in Hin'.
  rewrite list_lookup_middle in Hin' by done. simpl in Hin'.
  destruct (fold_values_decorated _ _ _ _ Hin')
    as [Hempty|(c & Hin & ->)]; [by apply elem_of_nil in Hempty|].
  exists c. split_and!; [done..|]. simpl.
  rewrite ModelFacts.decorated_execute_run. simpl.
  rewrite ModelFacts.decorated_execute_run. simpl.
  rewrite <- app_assoc. simpl.
  destruct (execute c input config _) as [[error|response] e']; simpl;
    by rewrite <- app_assoc.
Qed.

End More.

(** *** On the provider with two capabilities *)

Import Samples.

Lemma openai_keyed : keyed_by_id (table openai.1 openai.2).
Proof.
  split.
  - repeat constructor.
  - change (NoDup ["text-generation"; "image-generation"]).
    apply NoDup_cons. split; [|apply NoDup_singleton].
    by intros [=]%list_elem_of_singleton.
Qed.

Lemma addCapability_then_getCapability_witness :
  let h' := addCapability openai.1 audio_generation openai.2 in
  capabilities openai.1 < length openai.2
  ∧ getCapability openai.1 "audio-generation" h' = Some audio_generation
  ∧ hasCapability openai.1 "audio-generation" h' = true
  ∧ (∀ capabilityId,
       capabilityId ≠ "audio-generation" →
       getCapability openai.1 capabilityId h'
       = getCapability openai.1 capabilityId openai.2)
  ∧ (∀ other : Provider,
       capabilities other ≠ capabilities openai.1 →
       table other h' = table other openai.2).
Proof.
  split; [vm_compute; lia|].
  apply (addCapability_then_getCapability openai.1 audio_generation openai.2).
  vm_compute; lia.
Defined.

Lemma addCapability_order_witness :
  capabilities openai.1 < length openai.2
  ∧ getCapabilities openai.1
      (addCapability openai.1 audio_generation openai.2)
    = getCapabilities openai.1 openai.2 ++ [audio_generation]
  ∧ JsMap.keys
      (table openai.1 (addCapability openai.1 audio_generation openai.2))
    = JsMap.keys (table openai.1 openai.2) ++ ["audio-generation"].
Proof.
  split; [vm_compute; lia|].
  apply (addCapability_order openai.1 audio_generation openai.2).
  vm_compute; lia.
Defined.

Lemma decorator_keeps_order_witness :
  keyed_by_id (table openai.1 openai.2)
  ∧ getCapabilities logged.1 logged.2
    = map (decoratedCapability toISOString (id openai.1))
        (getCapabilities openai.1 openai.2)
  ∧ map cap_id (getCapabilities logged.1 logged.2)
    = map cap_id (getCapabilities openai.1 openai.2)
  ∧ map cap_name (getCapabilities logged.1 logged.2)
    = map cap_name (getCapabilities openai.1 openai.2)
  ∧ map cap_description (getCapabilities logged.1 logged.2)
    = map cap_description (getCapabilities openai.1 openai.2)
  ∧ keyed_by_id (table logged.1 logged.2).
Proof.
  split; [exact openai_keyed|].
  exact (decorator_keeps_order toISOString openai.1 openai.2 openai_keyed).
Defined.

Lemma decorator_leaves_model_witness :
  capabilities openai.1 < length openai.2
  ∧ (∀ other : Provider,
       capabilities other < length openai.2 →
       table other logged.2 = table other openai.2)
  ∧ (∀ capabilityId input config,
       executeCapability openai.1 capabilityId input config logged.2
       = executeCapability openai.1 capabilityId input config openai.2)
  ∧ ∀ capability,
      getCapability logged.1 (cap_id capability)
        (addCapability logged.1 capability logged.2) = Some capability
      ∧ table openai.1 (addCapability logged.1 capability logged.2)
        = table openai.1 openai.2.
Proof.
  split; [vm_compute; lia|].
  apply (decorator_leaves_model toISOString openai.1 openai.2).
  vm_compute; lia.
Defined.

(** The provider wrapped twice. *)
Lemma decorator_twice_witness :
  let outer := LoggingModelDecorator toISOString logged.1 logged.2 in
  getCapability outer.1 "text-generation" outer.2
  = Some (decoratedCapability toISOString "openai"
            (decoratedCapability toISOString "openai" text_generation))
  ∧ ∃ capability,
      capability ∈ getCapabilities openai.1 openai.2
      ∧ cap_id capability = "text-generation"
      ∧ executeCapability outer.1 "text-generation" "hi" None outer.2 quiet
        = match
            execute capability "hi" None
              (mkEnv (world quiet)
                 (sink quiet ++
                    [prompt_event (id openai.1) capability "hi" None;
                     prompt_event (id openai.1) capability "hi" None]))
          with
          | (inr response, e') =>
              (inr response,
               mkEnv (world e')
                 (sink e' ++
                    [response_event (id openai.1) capability response
                       (toISOString (world e')) None;
                     response_event (id openai.1) capability response
                       (toISOString (world e')) None]))
          | (inl error, e') =>
              (inl error,
               mkEnv (world e')
                 (sink e' ++
                    [error_event (id openai.1) capability error "hi";
                     error_event (id openai.1) capability error "hi"]))
          end.
Proof.
  split; [reflexivity|].
  apply (decorator_twice toISOString openai.1 openai.2 "text-generation"
           (decoratedCapability toISOString "openai"
              (decoratedCapability toISOString "openai" text_generation))).
  reflexivity.
Defined.

(** Its execution, spelled out: two prompt events, then two response
    events. *)
Example logged_twice_text_generation :
  let outer := LoggingModelDecorator toISOString logged.1 logged.2 in
  executeCapability outer.1 "text-generation" "hi" None outer.2 quiet
  = (inr "echo hi",
     mkEnv 8%N
       [prompt_event "openai" text_generation "hi" None;
        prompt_event "openai" text_generation "hi" None;
        response_event "openai" text_generation "echo hi" "T+8" None;
        response_event "openai" text_generation "echo hi" "T+8" None]).
Proof. reflexivity. Qed.

End ModelMore.

(** ** The plugin registry: rejections, order and shape *)

Module RegistryMore.
Import Js Registry RegistryShape.

Section More.
Context {Plugin : Type}.
Variable plugin_id : Plugin → IdValue.

Implicit Types (this : PluginRegistry (Plugin := Plugin)).
Implicit Types (plugin : Plugin) (key : string).

(** Every outcome of [register], by the argument and the table. *)
Lemma register_run (argument : option Plugin) this :
  let r := register plugin_id argument this in
  match r.1 with
  | inr _ =>
      ∃ plugin key,
        argument = Some plugin ∧ plugin_id plugin = IdString key
        ∧ String.prefix "plugin-" key = true
        ∧ JsMap.has key (plugins this) = false
        ∧ plugins r.2 = plugins this ++ [(key, plugin)]
        ∧ events r.2 = events this
  | inl _ =>
      plugins r.2 = plugins this
      ∧ ∃ event, events r.2 = events this ++ [event]
                 ∧ logLevel event = LogError
  end.
Proof.
  unfold register, validatePluginId, publishEvent, throw, reads, modify,
    mbind, Run_bind, mret, Run_ret.
  destruct argument as [plugin|]; cbn -[String.prefix];
    [|split; [done|]; eexists; by split].
  destruct (plugin_id plugin) as [[|a key]|[|] typeof] eqn:Hid;
    cbn -[String.prefix]; try (split; [done|]; eexists; by split).
  destruct (String.prefix "plugin-" (String a key)) eqn:Hprefix;
    cbn -[String.prefix]; [|split; [done|]; eexists; by split].
  destruct (JsMap.has (String a key) (plugins this)) eqn:Hhas;
    cbn -[String.prefix]; [split; [done|]; eexists; by split|].
  exists plugin, (String a key). split_and!; try done.
  apply JsMapMore.set_absent. by apply JsMapFacts.has_false_get.
Qed.

(** X16. [register] changes the table only when it returns, and then it
    adds one entry at the end: the plugin, under its id, a string that
    begins with [plugin-] and that the registry did not have; no event is
    published. When it throws, for whatever reason, the table is as it
    was and one error event has been published. In every case the plugins
    registered before are still found under their ids: an entry is never
    overwritten. *)
Theorem register_never_overwrites (argument : option Plugin) this :
  let r := register plugin_id argument this in
  (∀ key plugin,
     JsMap.get key (plugins this) = Some plugin →
     JsMap.get key (plugins r.2) = Some plugin)
  ∧ match r.1 with
    | inr _ =>
        ∃ plugin key,
          argument = Some plugin ∧ plugin_id plugin = IdString key
          ∧ String.prefix "plugin-" key = true
          ∧ JsMap.has key (plugins this) = false
          ∧ plugins r.2 = plugins this ++ [(key, plugin)]
          ∧ events r.2 = events this
    | inl _ =>
        plugins r.2 = plugins this
        ∧ ∃ event, events r.2 = events this ++ [event]
                   ∧ logLevel event = LogError
    end.
Proof.
  intros r. pose proof (register_run argument this) as Hrun.
  fold r in Hrun. cbv zeta in Hrun. split; [|done].
  intros key plugin Hget. destruct r.1.
  - destruct Hrun as [-> _]. done.
  - destruct Hrun as (p & k & _ & _ & _ & Hfresh & -> & _).
    apply JsMapFacts.has_false_get in Hfresh.
    destruct (decide (k = key)) as [->|Hne]; [congruence|].
    rewrite <- (JsMapMore.set_absent k p) by done.
    by rewrite JsMapFacts.get_set_ne.
Qed.

(** X17. What [register] throws on an argument it rejects, the checks
    being made in this order: no plugin at all; an id that is falsy, be it
    the empty string or a falsy value that is not a string, is reported as
    empty; a truthy id that is not a string is reported as not a string;
    a non-empty string that does not begin with [plugin-] is reported for
    its prefix. *)
Theorem register_rejects this :
  (register plugin_id None this).1
  = inl (JsError "Cannot register null or undefined plugin")
  ∧ ∀ plugin,
      match plugin_id plugin with
      | IdOther false _ =>
          (register plugin_id (Some plugin) this).1
          = inl (JsError "Plugin ID cannot be empty")
      | IdOther true _ =>
          (register plugin_id (Some plugin) this).1
          = inl (JsError "Plugin ID must be a string")
      | IdString key =>
          if String.eqb key "" then
            (register plugin_id (Some plugin) this).1
            = inl (JsError "Plugin ID cannot be empty")
          else if String.prefix "plugin-" key then True
          else
            (register plugin_id (Some plugin) this).1
            = inl (JsError
                     ("Plugin ID must start with " +:+ DQ +:+ "plugin-"
                        +:+ DQ))
      end.
Proof.
  split; [done|]. intros plugin.
  unfold register, validatePluginId, publishEvent, throw, reads, modify,
    mbind, Run_bind, mret, Run_ret.
  destruct (plugin_id plugin) as [[|a key]|[|] typeof];
    cbn -[String.prefix]; try done.
  by destruct (String.prefix "plugin-" (String a key)).
Qed.

(** X18. [register] keeps the registry well formed, whatever it is given
    and whether it returns or throws: after it, as before, every plugin
    is found under its own id only, that id begins with [plugin-], and no
    id is registered twice. *)
Theorem register_keeps_well_formed (argument : option Plugin) this :
  well_formed plugin_id this →
  let after := (register plugin_id argument this).2 in
  well_formed plugin_id after
  ∧ ∀ key plugin,
      JsMap.get key (plugins after) = Some plugin →
      plugin_id plugin = IdString key
      ∧ String.prefix "plugin-" key = true.
Proof.
  intros Hwf after.
  assert (Hafter : well_formed plugin_id after).
  { subst after. pose proof (register_run argument this) as Hrun.
    cbv zeta in Hrun.
    destruct (register plugin_id argument this) as [[error|[]] r]; simpl in *.
    - destruct Hrun as [Hsame _]. unfold well_formed. by rewrite Hsame.
    - destruct Hrun as (p & k & _ & Hid & Hprefix & Hfresh & Hplugins & _).
      destruct Hwf as [Hall Hnodup]. unfold well_formed. rewrite Hplugins.
      split.
      + apply Forall_app. split; [done|]. by repeat constructor.
      + unfold JsMap.keys in *. rewrite map_app. simpl.
        apply NoDup_app. split_and!; [done| |apply NoDup_singleton].
        intros k' Hin ->%list_elem_of_singleton.
        apply JsMapFacts.has_keys in Hin. congruence. }
  split; [done|]. intros key plugin Hget.
  destruct Hafter as [Hall _]. revert Hget.
  induction Hall as [|[k p] rest [Hk Hp] _ IH]; simpl; [done|].
  destruct (String.eqb k key) eqn:E; [|done].
  apply String.eqb_eq in E as ->. by intros [= <-].
Qed.

(** X19. [getPlugin] reads and never writes: the table is as it was, and
    what is returned is the plugin stored under the id, or nothing when
    the id is not registered; only then is an event published, one warning
    that lists the ids registered. *)
Theorem getPlugin_reads key this :
  let r := getPlugin key this in
  r.1 = inr (JsMap.get key (plugins this))
  ∧ plugins r.2 = plugins this
  ∧ events r.2 =
      events this ++
        match JsMap.get key (plugins this) with
        | Some _ => []
        | None =>
            [mkEvent "registry.plugin.not_found" "Plugin not found" LogWarn
               (MObj [("id", MStr key);
                      ("availablePlugins",
                       MArr (map MStr (JsMap.keys (plugins this))))])]
        end.
Proof.
  unfold getPlugin, publishEvent, reads, modify, mbind, Run_bind, mret,
    Run_ret. simpl.
  destruct (JsMap.get key (plugins this)); simpl; by rewrite ?app_nil_r.
Qed.

Lemma register_each_run (list : list Plugin) this :
  Forall
    (λ plugin, ∃ key, plugin_id plugin = IdString key
                      ∧ String.prefix "plugin-" key = true)
    list →
  NoDup (map plugin_id list) →
  (∀ plugin key, plugin ∈ list → plugin_id plugin = IdString key →
                 JsMap.has key (plugins this) = false) →
  register_each plugin_id list this
  = (inr (),
     mkRegistry
       (plugins this ++ map (λ plugin, (as_string (plugin_id plugin), plugin))
                          list)
       (events this)).
Proof.
  revert this. induction list as [|p ps IH]; intros this Hvalid Hnodup Hfresh.
  - simpl. unfold mret, Run_ret. rewrite app_nil_r. by destruct this.
  - apply Forall_cons in Hvalid as [(key & Hid & Hprefix) Hvalid].
    simpl in Hnodup. apply NoDup_cons in Hnodup as [Hnotin Hnodup].
    cbn [register_each]. unfold mbind, Run_bind.
    rewrite (RegistryFacts.register_fresh plugin_id p key this);
      [|done|done|apply (Hfresh p); [by left|done]].
    rewrite IH; [| done | done |].
    + simpl. rewrite Hid. simpl.
      rewrite JsMapMore.set_absent.
      * by rewrite <- app_assoc.
      * apply JsMapFacts.has_false_get, (Hfresh p); [by left|done].
    + intros q k Hq Hk. simpl. unfold JsMap.has.
      destruct (decide (key = k)) as [->|Hne].
      * exfalso. apply Hnotin. rewrite <- Hid in Hk. rewrite <- Hk.
        apply list_elem_of_fmap. by exists q.
      * rewrite JsMapFacts.get_set_ne by done.
        apply (Hfresh q k); [by right|done].
Qed.

Lemma get_listed (list : list Plugin) plugin :
  Forall
    (λ plugin, ∃ key, plugin_id plugin = IdString key
                      ∧ String.prefix "plugin-" key = true)
    list →
  NoDup (map plugin_id list) →
  plugin ∈ list →
  JsMap.get (as_string (plugin_id plugin))
    (map (λ plugin, (as_string (plugin_id plugin), plugin)) list)
  = Some plugin.
Proof.
  induction list as [|p ps IH]; intros Hvalid Hnodup Hin.
  - by apply elem_of_nil in Hin.
  - apply Forall_cons in Hvalid as [(key & Hid & _) Hvalid].
    simpl in Hnodup. apply NoDup_cons in Hnodup as [Hnotin Hnodup].
    simpl. apply elem_of_cons in Hin as [->|Hin].
    + by rewrite String.eqb_refl.
    + destruct (String.eqb _ _) eqn:E; [|by apply IH].
      exfalso. apply String.eqb_eq in E. apply Hnotin.
      apply list_elem_of_fmap. exists plugin. split; [|done].
      rewrite Forall_forall in Hvalid.
      destruct (Hvalid plugin) as (key' & Hid' & _); [done|].
      rewrite Hid, Hid' in *. simpl in E. by subst.
Qed.

Lemma get_app (m1 m2 : JsMap.t Plugin) key :
  JsMap.get key m1 = None → JsMap.get key (m1 ++ m2) = JsMap.get key m2.
Proof.
  induction m1 as [|[k v] rest IH]; simpl; [done|].
  by destruct (String.eqb k key).
Qed.

(** X20. Plugins with ids that begin with [plugin-], different from one
    another and from the ids already registered, are all accepted when
    they are registered one after the other; [getAllPlugins] then returns
    the plugins registered before followed by these, in the order of their
    registration, and [getPlugin] finds each of them under its id. *)
Theorem register_each_in_order (list : list Plugin) this :
  Forall
    (λ plugin, ∃ key, plugin_id plugin = IdString key
                      ∧ String.prefix "plugin-" key = true)
    list →
  NoDup (map plugin_id list) →
  (∀ plugin key, plugin ∈ list → plugin_id plugin = IdString key →
                 JsMap.has key (plugins this) = false) →
  let r := register_each plugin_id list this in
  r.1 = inr ()
  ∧ (getAllPlugins r.2).1 = inr (JsMap.values (plugins this) ++ list)
  ∧ ∀ plugin,
      plugin ∈ list →
      (getPlugin (as_string (plugin_id plugin)) r.2).1 = inr (Some plugin).
Proof.
  intros Hvalid Hnodup Hfresh. cbv zeta.
  rewrite register_each_run by done. simpl. split; [done|]. split.
  - unfold getAllPlugins, reads, JsMap.values. simpl.
    rewrite map_app, map_map. simpl. by rewrite map_id.
  - intros plugin Hin.
    unfold getPlugin, reads, mbind, Run_bind, mret, Run_ret. simpl.
    rewrite get_app, get_listed; [done..|].
    rewrite Forall_forall in Hvalid.
    destruct (Hvalid plugin) as (key & Hid & _); [done|].
    rewrite Hid. simpl. apply JsMapFacts.has_false_get. by eapply Hfresh.
Qed.

End More.

(** *** On the sample plugins *)

Import Plugins.

Lemma registry_well_formed : well_formed id registry.
Proof.
  split.
  - by repeat constructor.
  - apply NoDup_singleton.
Qed.

Lemma register_keeps_well_formed_witness :
  let after := (register id (Some character) registry).2 in
  well_formed id registry
  ∧ well_formed id after
  ∧ ∀ key plugin,
      JsMap.get key (plugins after) = Some plugin →
      id plugin = IdString key ∧ String.prefix "plugin-" key = true.
Proof.
  split; [exact registry_well_formed|].
  exact (register_keeps_well_formed id (Some character) registry
           registry_well_formed).
Defined.

Lemma sample_plugins_valid :
  Forall
    (λ plugin, ∃ key, id plugin = IdString key
                      ∧ String.prefix "plugin-" key = true)
    [character; search].
Proof. repeat constructor; by eexists. Qed.

Lemma sample_plugins_distinct : NoDup (map id [character; search]).
Proof.
  apply NoDup_cons. split; [|apply NoDup_singleton].
  by intros [=]%list_elem_of_singleton.
Qed.

Lemma register_each_in_order_witness :
  let r := register_each id [character; search] (mkRegistry [] []) in
  Forall
    (λ plugin, ∃ key, id plugin = IdString key
                      ∧ String.prefix "plugin-" key = true)
    [character; search]
  ∧ NoDup (map id [character; search])
  ∧ (∀ plugin key, plugin ∈ [character; search] →
                   id plugin = IdString key →
                   JsMap.has key
                     (plugins (mkRegistry (Plugin := Plugin) [] [])) = false)
  ∧ r.1 = inr ()
  ∧ (getAllPlugins r.2).1 = inr [character; search]
  ∧ ∀ plugin,
      plugin ∈ [character; search] →
      (getPlugin (as_string (id plugin)) r.2).1 = inr (Some plugin).
Proof.
  split; [exact sample_plugins_valid|].
  split; [exact sample_plugins_distinct|].
  split; [done|].
  exact (register_each_in_order id [character; search] (mkRegistry [] [])
           sample_plugins_valid sample_plugins_distinct
           (λ _ _ _ _, eq_refl)).
Defined.

End RegistryMore.

(** ** The chat client *)

Module ChatFacts.
Import Js Chat.

Section Facts.
Context {Num : Type}.
Variable nonzero : Num → bool.
Variable trim : string → string.
Variable null_read : Thrown.

Implicit Types (render : Render) (b : Browser (Num := Num)).

(** The guard of [handleSend], as the test the code makes. *)
Lemma handleSend_blocked render b :
  String.eqb (trim (rendered_input render)) "" || negb (connected render)
  = true →
  handleSend nonzero trim null_read render b = (inr (), b).
Proof. intros Hguard. unfold handleSend. by rewrite Hguard. Qed.

(** X21. [handleSend] does nothing at all when the input is blank (empty
    once trimmed) or the client is not connected: no message is added, the
    input is kept, no request is sent, nothing is logged. *)
Theorem handleSend_guard render b :
  trim (rendered_input render) = "" ∨ connected render = false →
  handleSend nonzero trim null_read render b = (inr (), b).
Proof.
  intros Hguard. apply handleSend_blocked.
  destruct Hguard as [-> | ->]; [done|].
  by rewrite orb_true_r.
Qed.

(** The answer that [handleSend] shows for a reply. *)
Lemma handleSend_run render b :
  trim (rendered_input render) ≠ "" →
  connected render = true →
  let request :=
    mkRequest (chatApiUrl render) "POST" "application/json"
      (rendered_input render) (username render) in
  let exchange := server b request in
  let sent := mkMessage (JStr (rendered_input render)) user (time b) in
  let arrived :=
    meanwhile exchange (mkState (messages (state b) ++ [sent]) "") in
  let fallback := JStr "No response received" in
  let failure :=
    JStr "Error: Could not send message. Please try again." in
  let outcome : Json * list ConsoleEntry :=
    match reply exchange with
    | NetworkFailure error | BodyNotJson error =>
        (failure, [ConsoleError "Error sending message:" error])
    | Body JNull =>
        (failure,
         [ConsoleLog "Server response:" JNull;
          ConsoleError "Error sending message:" null_read])
    | Body (JStr s) => (JStr s, [ConsoleLog "Server response:" (JStr s)])
    | Body (JObj properties) =>
        (match JsMap.get "message" properties with
         | Some value => if json_truthy nonzero value then value else fallback
         | None => fallback
         end,
         [ConsoleLog "Server response:" (JObj properties)])
    | Body data => (fallback, [ConsoleLog "Server response:" data])
    end in
  handleSend nonzero trim null_read render b
  = (inr (),
     mkBrowser
       (mkState
          (messages arrived ++
             [mkMessage outcome.1 agent (time b + elapsed exchange)%N])
          (input arrived))
       (time b + elapsed exchange)%N
       (requests b ++ [request])
       (console b ++ outcome.2)
       (server b)).
Proof.
  intros Hinput Hconnected. unfold handleSend.
  apply String.eqb_neq in Hinput. rewrite Hinput, Hconnected. simpl.
  unfold try_catch, fetch_json, appendMessage, setInput, console_log,
    console_error, read_message, now, throw, reads, modify, mbind, Run_bind,
    mret, Run_ret. simpl.
  destruct (reply (server b _)) as [error|error|data]; simpl;
    [by rewrite <- ?app_assoc..|].
  destruct data as [|flag|n|s|items|properties]; simpl;
    by rewrite <- ?app_assoc.
Qed.

(** X22. A [handleSend] that passes its guard returns (it never throws)
    after exactly one request: a POST to [chatApiUrl] whose body holds the
    input and the user name of the render. The user's message, stamped
    with the time of the call, is added to the messages first and the
    input is emptied; whatever other handlers did to the state during the
    exchange is kept, and one message of the agent, stamped with the time
    the reply came, is added last. *)
Theorem handleSend_exchange render b :
  trim (rendered_input render) ≠ "" →
  connected render = true →
  let request :=
    mkRequest (chatApiUrl render) "POST" "application/json"
      (rendered_input render) (username render) in
  let exchange := server b request in
  let sent := mkMessage (JStr (rendered_input render)) user (time b) in
  let arrived :=
    meanwhile exchange (mkState (messages (state b) ++ [sent]) "") in
  let r := handleSend nonzero trim null_read render b in
  r.1 = inr ()
  ∧ requests r.2 = requests b ++ [request]
  ∧ time r.2 = (time b + elapsed exchange)%N
  ∧ input (state r.2) = input arrived
  ∧ ∃ answer,
      messages (state r.2)
      = messages arrived ++
          [mkMessage answer agent (time b + elapsed exchange)%N].
Proof.
  intros Hinput Hconnected. cbv zeta.
  rewrite handleSend_run by done. simpl. split_and!; [done..|].
  by eexists.
Qed.

(** X23. What [handleSend] shows as the answer of the agent. A reply that
    is a string is shown as it is, the empty string included. Of any other
    value the [message] property is shown when it is truthy, and
    ["No response received"] when it is falsy or missing. When the request
    fails, when the body is not JSON, and when the reply is [null] (whose
    property cannot be read), the fixed text
    ["Error: Could not send message. Please try again."] is shown and the
    error goes to the console. *)
Theorem handleSend_answer render b :
  trim (rendered_input render) ≠ "" →
  connected render = true →
  let request :=
    mkRequest (chatApiUrl render) "POST" "application/json"
      (rendered_input render) (username render) in
  let fallback := JStr "No response received" in
  let failure :=
    JStr "Error: Could not send message. Please try again." in
  let r := handleSend nonzero trim null_read render b in
  (content <$> last (messages (state r.2)))
  = Some
      match reply (server b request) with
      | NetworkFailure _ | BodyNotJson _ | Body JNull => failure
      | Body (JStr s) => JStr s
      | Body (JObj properties) =>
          match JsMap.get "message" properties with
          | Some value =>
              if json_truthy nonzero value then value else fallback
          | None => fallback
          end
      | Body (JBool _) | Body (JNum _) | Body (JArr _) => fallback
      end
  ∧ console r.2 =
      console b ++
        match reply (server b request) with
        | NetworkFailure error | BodyNotJson error =>
            [ConsoleError "Error sending message:" error]
        | Body JNull =>
            [ConsoleLog "Server response:" JNull;
             ConsoleError "Error sending message:" null_read]
        | Body data => [ConsoleLog "Server response:" data]
        end.
Proof.
  intros Hinput Hconnected. cbv zeta.
  rewrite handleSend_run by done. simpl. rewrite last_snoc. simpl.
  destruct (reply (server b _)) as [error|error|data]; [done..|].
  by destruct data.
Qed.

(** [handleSend] returns, whatever it is given. *)
Lemma handleSend_returns render b :
  (handleSend nonzero trim null_read render b).1 = inr ().
Proof.
  destruct (String.eqb (trim (rendered_input render)) "") eqn:Hblank.
  - rewrite handleSend_blocked; [done|by rewrite Hblank].
  - apply String.eqb_neq in Hblank.
    destruct (connected render) eqn:Hconnected.
    + by rewrite handleSend_run.
    + rewrite handleSend_blocked; [done|].
      by rewrite Hconnected, orb_true_r.
Qed.

(** X24. A key press sends only when the key is Enter and Shift is not
    held: then the default action is prevented and the browser is left as
    [handleSend] leaves it. Any other key, and Enter with Shift, prevents
    nothing and changes nothing. *)
Theorem handleKeyPress_enter render event b :
  handleKeyPress nonzero trim null_read render event b
  = if String.eqb (key event) "Enter" && negb (shiftKey event)
    then (inr true, (handleSend nonzero trim null_read render b).2)
    else (inr false, b).
Proof.
  unfold handleKeyPress.
  destruct (String.eqb (key event) "Enter" && negb (shiftKey event));
    [|done].
  unfold mbind, Run_bind. pose proof (handleSend_returns render b) as Hret.
  by destruct (handleSend nonzero trim null_read render b) as [[error|[]] b'].
Qed.

End Facts.

(** *** In the sample browser *)

Import ChatSamples.

Lemma handleSend_guard_witness :
  (trim (rendered_input render_blank) = ""
   ∨ connected render_blank = false)
  ∧ handleSend nonzero trim null_read render_blank (browser greeter)
    = (inr (), browser greeter).
Proof.
  split; [by left|].
  apply (handleSend_guard nonzero trim null_read render_blank
           (browser greeter)).
  by left.
Defined.

Lemma handleSend_exchange_witness :
  let r := handleSend nonzero trim null_read render_hi (browser greeter) in
  trim (rendered_input render_hi) ≠ ""
  ∧ connected render_hi = true
  ∧ r.1 = inr ()
  ∧ requests r.2
    = [mkRequest "http://localhost:3002/chat" "POST" "application/json"
         "hi" "user-name"]
  ∧ time r.2 = 1005%N
  ∧ input (state r.2) = ""
  ∧ ∃ answer,
      messages (state r.2)
      = [mkMessage (JStr "hi") user 1000] ++ [mkMessage answer agent 1005].
Proof.
  split; [discriminate|]. split; [reflexivity|].
  apply (handleSend_exchange nonzero trim null_read render_hi
           (browser greeter)); [discriminate|reflexivity].
Defined.

Lemma handleSend_answer_witness :
  let r := handleSend nonzero trim null_read render_hi (browser offline) in
  trim (rendered_input render_hi) ≠ ""
  ∧ connected render_hi = true
  ∧ (content <$> last (messages (state r.2)))
    = Some (JStr "Error: Could not send message. Please try again.")
  ∧ console r.2
    = [ConsoleError "Error sending message:" (JsError "Failed to fetch")].
Proof.
  split; [discriminate|]. split; [reflexivity|].
  apply (handleSend_answer nonzero trim null_read render_hi
           (browser offline)); [discriminate|reflexivity].
Defined.

(** The exchange with the greeter, spelled out. *)
Example greeting :
  state (handleSend nonzero trim null_read render_hi (browser greeter)).2
  = mkState
      [mkMessage (JStr "hi") user 1000;
       mkMessage (JStr "hello user-name") agent 1005]
      "".
Proof. reflexivity. Qed.

End ChatFacts.
